(** * Storm texture utilities: format selection and pixel transformers

    A shallow embedding of [pxr/imaging/hdSt/textureUtils.cpp]:
    - [HdStTextureUtils.GetHgiFormat], the switch that maps an [HioFormat] to
      an [HgiFormat] and possibly stores a conversion routine through its
      out-parameter, reporting through [TF_WARN] / [TF_CODING_ERROR];
    - the conversion routines [_ConvertRGBToRGBA], [_PremultiplyAlpha] and
      [_PremultiplyAlphaFloat], run over a typed heap addressed by element
      index, so that source and destination may alias;
    - the binary32 / binary64 arithmetic those routines perform, on
      [spec_float]. *)

From Stdlib Require Import ZArith Lia Bool List String.
From Stdlib Require Import Floats.SpecFloat.
From stdpp Require Import base option list.

Local Open Scope Z_scope.

(* ================================================================== *)
(** * Element types and function handles *)

(** The element types the templates of the file are instantiated with:
    those accepted by [static_assert(std::numeric_limits<T>::is_integer)] and
    those accepted by [static_assert(GfIsFloatingPoint<T>::value)]. *)
Inductive integral : Set :=
  | unsigned_char
  | signed_char
  | uint16_t
  | int32_t.

Inductive floating : Set :=
  | GfHalf
  | float.

Inductive ctype : Set :=
  | Integral (T : integral)
  | Floating (T : floating).

Coercion Integral : integral >-> ctype.
Coercion Floating : floating >-> ctype.

(** What a [ConversionFunction] variable can hold: the null pointer or the
    address of one of the template instances of the anonymous namespace. *)
Inductive ConversionFunction : Set :=
  | nullptr
  | Fn_ConvertRGBToRGBA (T : ctype)
  | Fn_PremultiplyAlpha (T : integral) (isSRGB : bool)
  | Fn_PremultiplyAlphaFloat (T : floating).

(* ================================================================== *)
(** * The two format enumerations *)

(** [HioFormat]: the enumerators the switch names, and [HioFormat_cast raw]
    for a value of the enumeration type that equals none of them (the value
    reaches the code after the switch). *)
Inductive HioFormat : Set :=
  | HioFormatUNorm8 | HioFormatUNorm8Vec2 | HioFormatUNorm8Vec3 | HioFormatUNorm8Vec4
  | HioFormatSNorm8 | HioFormatSNorm8Vec2 | HioFormatSNorm8Vec3 | HioFormatSNorm8Vec4
  | HioFormatFloat16 | HioFormatFloat16Vec2 | HioFormatFloat16Vec3 | HioFormatFloat16Vec4
  | HioFormatFloat32 | HioFormatFloat32Vec2 | HioFormatFloat32Vec3 | HioFormatFloat32Vec4
  | HioFormatDouble64 | HioFormatDouble64Vec2 | HioFormatDouble64Vec3 | HioFormatDouble64Vec4
  | HioFormatUInt16 | HioFormatUInt16Vec2 | HioFormatUInt16Vec3 | HioFormatUInt16Vec4
  | HioFormatInt16 | HioFormatInt16Vec2 | HioFormatInt16Vec3 | HioFormatInt16Vec4
  | HioFormatUInt32 | HioFormatUInt32Vec2 | HioFormatUInt32Vec3 | HioFormatUInt32Vec4
  | HioFormatInt32 | HioFormatInt32Vec2 | HioFormatInt32Vec3 | HioFormatInt32Vec4
  | HioFormatUNorm8srgb | HioFormatUNorm8Vec2srgb
  | HioFormatUNorm8Vec3srgb | HioFormatUNorm8Vec4srgb
  | HioFormatBC6FloatVec3 | HioFormatBC6UFloatVec3
  | HioFormatBC7UNorm8Vec4 | HioFormatBC7UNorm8Vec4srgb
  | HioFormatBC1UNorm8Vec4 | HioFormatBC3UNorm8Vec4
  | HioFormatInvalid
  | HioFormatCount
  | HioFormat_cast (raw : Z).

(** [HgiFormat]: the enumerators the switch returns. *)
Inductive HgiFormat : Set :=
  | HgiFormatUNorm8 | HgiFormatUNorm8Vec2 | HgiFormatUNorm8Vec4
  | HgiFormatSNorm8 | HgiFormatSNorm8Vec2 | HgiFormatSNorm8Vec4
  | HgiFormatFloat16 | HgiFormatFloat16Vec2 | HgiFormatFloat16Vec3 | HgiFormatFloat16Vec4
  | HgiFormatFloat32 | HgiFormatFloat32Vec2 | HgiFormatFloat32Vec3 | HgiFormatFloat32Vec4
  | HgiFormatUInt16 | HgiFormatUInt16Vec2 | HgiFormatUInt16Vec3 | HgiFormatUInt16Vec4
  | HgiFormatInt32 | HgiFormatInt32Vec2 | HgiFormatInt32Vec3 | HgiFormatInt32Vec4
  | HgiFormatUNorm8Vec4srgb
  | HgiFormatBC6FloatVec3 | HgiFormatBC6UFloatVec3
  | HgiFormatBC7UNorm8Vec4 | HgiFormatBC7UNorm8Vec4srgb
  | HgiFormatBC1UNorm8Vec4 | HgiFormatBC3UNorm8Vec4
  | HgiFormatInvalid.

(* ================================================================== *)
(** * Diagnostics and the selector's state *)

Inductive Diagnostic : Set :=
  | TF_WARN_msg (msg : string)
  | TF_CODING_ERROR_msg (msg : string).

Definition is_warning (d : Diagnostic) : bool :=
  match d with TF_WARN_msg _ => true | TF_CODING_ERROR_msg _ => false end.

Definition is_coding_error (d : Diagnostic) : bool :=
  match d with TF_WARN_msg _ => false | TF_CODING_ERROR_msg _ => true end.

(** What a call of [GetHgiFormat] can change: the variable its
    [conversionFunction] argument points to, and the diagnostics issued so
    far (oldest first). *)
Record Env : Set := mkEnv {
  pointee : ConversionFunction;
  issued : list Diagnostic
}.

Module Sel.
(** State passing for the selector. *)
Definition M (A : Type) : Type := Env -> A * Env.

Definition ret {A} (a : A) : M A := fun s => (a, s).

Definition bind {A B} (m : M A) (k : A -> M B) : M B :=
  fun s => let '(a, s') := m s in k a s'.

(** [*conversionFunction = f] *)
Definition assign (f : ConversionFunction) : M unit :=
  fun s => (tt, mkEnv f (issued s)).

Definition TF_WARN (msg : string) : M unit :=
  fun s => (tt, mkEnv (pointee s) (issued s ++ [TF_WARN_msg msg])).

Definition TF_CODING_ERROR (msg : string) : M unit :=
  fun s => (tt, mkEnv (pointee s) (issued s ++ [TF_CODING_ERROR_msg msg])).

Definition when (b : bool) (m : M unit) : M unit :=
  if b then m else ret tt.
End Sel.

Declare Scope sel_scope.
Delimit Scope sel_scope with sel.
Notation "m ;; k" := (Sel.bind m (fun _ => k))
  (at level 100, k at level 200, right associativity) : sel_scope.

Module HdStTextureUtils.
Import Sel.
Local Open Scope sel_scope.
Local Open Scope string_scope.

Definition GetHgiFormat (hioFormat : HioFormat) (premultiplyAlpha : bool)
    (avoidThreeComponentFormats : bool) : M HgiFormat :=
  match hioFormat with
  (* UNorm 8 *)
  | HioFormatUNorm8 => ret HgiFormatUNorm8
  | HioFormatUNorm8Vec2 => ret HgiFormatUNorm8Vec2
  | HioFormatUNorm8Vec3 =>
      assign (Fn_ConvertRGBToRGBA unsigned_char) ;;
      ret HgiFormatUNorm8Vec4
  | HioFormatUNorm8Vec4 =>
      when premultiplyAlpha (assign (Fn_PremultiplyAlpha unsigned_char false)) ;;
      ret HgiFormatUNorm8Vec4
  (* SNorm8 *)
  | HioFormatSNorm8 => ret HgiFormatSNorm8
  | HioFormatSNorm8Vec2 => ret HgiFormatSNorm8Vec2
  | HioFormatSNorm8Vec3 =>
      assign (Fn_ConvertRGBToRGBA signed_char) ;;
      ret HgiFormatSNorm8Vec4
  | HioFormatSNorm8Vec4 =>
      when premultiplyAlpha (assign (Fn_PremultiplyAlpha signed_char false)) ;;
      ret HgiFormatSNorm8Vec4
  (* Float16 *)
  | HioFormatFloat16 => ret HgiFormatFloat16
  | HioFormatFloat16Vec2 => ret HgiFormatFloat16Vec2
  | HioFormatFloat16Vec3 =>
      if avoidThreeComponentFormats then
        assign (Fn_ConvertRGBToRGBA GfHalf) ;;
        ret HgiFormatFloat16Vec4
      else ret HgiFormatFloat16Vec3
  | HioFormatFloat16Vec4 =>
      when premultiplyAlpha (assign (Fn_PremultiplyAlphaFloat GfHalf)) ;;
      ret HgiFormatFloat16Vec4
  (* Float32 *)
  | HioFormatFloat32 => ret HgiFormatFloat32
  | HioFormatFloat32Vec2 => ret HgiFormatFloat32Vec2
  | HioFormatFloat32Vec3 =>
      if avoidThreeComponentFormats then
        assign (Fn_ConvertRGBToRGBA float) ;;
        ret HgiFormatFloat32Vec4
      else ret HgiFormatFloat32Vec3
  | HioFormatFloat32Vec4 =>
      when premultiplyAlpha (assign (Fn_PremultiplyAlphaFloat float)) ;;
      ret HgiFormatFloat32Vec4
  (* Double64 *)
  | HioFormatDouble64 | HioFormatDouble64Vec2
  | HioFormatDouble64Vec3 | HioFormatDouble64Vec4 =>
      TF_WARN "Double texture formats not supported by Storm" ;;
      ret HgiFormatInvalid
  (* UInt16 *)
  | HioFormatUInt16 => ret HgiFormatUInt16
  | HioFormatUInt16Vec2 => ret HgiFormatUInt16Vec2
  | HioFormatUInt16Vec3 =>
      if avoidThreeComponentFormats then
        assign (Fn_ConvertRGBToRGBA uint16_t) ;;
        ret HgiFormatUInt16Vec4
      else ret HgiFormatUInt16Vec3
  | HioFormatUInt16Vec4 =>
      when premultiplyAlpha (assign (Fn_PremultiplyAlpha uint16_t false)) ;;
      ret HgiFormatUInt16Vec4
  (* Int16 *)
  | HioFormatInt16 | HioFormatInt16Vec2
  | HioFormatInt16Vec3 | HioFormatInt16Vec4 =>
      TF_WARN "Signed 16-bit integer texture formats not supported by Storm" ;;
      ret HgiFormatInvalid
  (* UInt32 *)
  | HioFormatUInt32 | HioFormatUInt32Vec2
  | HioFormatUInt32Vec3 | HioFormatUInt32Vec4 =>
      TF_WARN "Unsigned 32-bit integer texture formats not supported by Storm" ;;
      ret HgiFormatInvalid
  (* Int32 *)
  | HioFormatInt32 => ret HgiFormatInt32
  | HioFormatInt32Vec2 => ret HgiFormatInt32Vec2
  | HioFormatInt32Vec3 =>
      if avoidThreeComponentFormats then
        assign (Fn_ConvertRGBToRGBA int32_t) ;;
        ret HgiFormatInt32Vec4
      else ret HgiFormatInt32Vec3
  | HioFormatInt32Vec4 =>
      when premultiplyAlpha (assign (Fn_PremultiplyAlpha int32_t false)) ;;
      ret HgiFormatInt32Vec4
  (* UNorm8 SRGB *)
  | HioFormatUNorm8srgb | HioFormatUNorm8Vec2srgb =>
      TF_WARN "One and two channel srgb texture formats not supported by Storm" ;;
      ret HgiFormatInvalid
  | HioFormatUNorm8Vec3srgb =>
      assign (Fn_ConvertRGBToRGBA unsigned_char) ;;
      ret HgiFormatUNorm8Vec4srgb
  | HioFormatUNorm8Vec4srgb =>
      when premultiplyAlpha (assign (Fn_PremultiplyAlpha unsigned_char true)) ;;
      ret HgiFormatUNorm8Vec4srgb
  (* BPTC compressed *)
  | HioFormatBC6FloatVec3 => ret HgiFormatBC6FloatVec3
  | HioFormatBC6UFloatVec3 => ret HgiFormatBC6UFloatVec3
  | HioFormatBC7UNorm8Vec4 => ret HgiFormatBC7UNorm8Vec4
  | HioFormatBC7UNorm8Vec4srgb => ret HgiFormatBC7UNorm8Vec4srgb
  (* S3TC/DXT compressed *)
  | HioFormatBC1UNorm8Vec4 => ret HgiFormatBC1UNorm8Vec4
  | HioFormatBC3UNorm8Vec4 => ret HgiFormatBC3UNorm8Vec4
  | HioFormatInvalid => ret HgiFormatInvalid
  | HioFormatCount =>
      TF_CODING_ERROR "HioFormatCount passed to function" ;;
      ret HgiFormatInvalid
  (* after the switch *)
  | HioFormat_cast _ =>
      TF_CODING_ERROR "Invalid HioFormat enum value" ;;
      ret HgiFormatInvalid
  end.
End HdStTextureUtils.

(** The transformation a caller observes after a call made with the
    out-parameter's variable initialised to [nullptr] and no diagnostics
    pending: the return value, the variable, the diagnostics. *)
Definition Select (hioFormat : HioFormat) (premultiplyAlpha avoidThreeComponentFormats : bool)
    : HgiFormat * ConversionFunction * list Diagnostic :=
  let '(hgi, s) :=
    HdStTextureUtils.GetHgiFormat hioFormat premultiplyAlpha
      avoidThreeComponentFormats (mkEnv nullptr []) in
  (hgi, pointee s, issued s).


(* ================================================================== *)
(** * Element values and [std::numeric_limits] *)

(** Modelled from the spec: GfHalf (pxr/base/gf/half.h is not under src/) is
    the half-precision float element type; it is taken as IEEE 754 binary16
    (11 bits of precision, infinities at exponent 16). [float] is binary32 and
    [double] binary64, every operation being evaluated in the format of its
    C++ type. *)
Definition prec (F : floating) : Z :=
  match F with GfHalf => 11 | float => 24 end.

Definition emax (F : floating) : Z :=
  match F with GfHalf => 16 | float => 128 end.

(** The values of an element: integers for the integer types, floating-point
    data for the others. *)
Definition val (T : ctype) : Type :=
  match T with
  | Integral _ => Z
  | Floating _ => spec_float
  end.

Module numeric_limits.
Definition is_integer (T : ctype) : bool :=
  match T with Integral _ => true | Floating _ => false end.

Definition is_signed (T : integral) : bool :=
  match T with
  | unsigned_char | uint16_t => false
  | signed_char | int32_t => true
  end.

(** Number of value bits. *)
Definition digits (T : integral) : Z :=
  match T with
  | unsigned_char => 8
  | signed_char => 7
  | uint16_t => 16
  | int32_t => 31
  end.

Definition lowest (T : integral) : Z :=
  if is_signed T then - 2 ^ digits T else 0.

Definition max (T : ctype) : val T :=
  match T with
  | Integral Ti => 2 ^ digits Ti - 1
  | Floating Tf => SFmax_float (prec Tf) (emax Tf)
  end.
End numeric_limits.

(** The values an integer element can hold. *)
Definition representable (T : integral) (z : Z) : Prop :=
  numeric_limits.lowest T <= z <= numeric_limits.max T.

Definition representableb (T : integral) (z : Z) : bool :=
  (numeric_limits.lowest T <=? z) && (z <=? numeric_limits.max T).

(** [T(z)] for a small integer constant [z]. *)
Definition construct (T : ctype) (z : Z) : val T :=
  match T with
  | Integral _ => z
  | Floating Tf => binary_normalize (prec Tf) (emax Tf) z 0 false
  end.

Definition _OpaqueAlpha (T : ctype) : val T :=
  if numeric_limits.is_integer T then numeric_limits.max T else construct T 1.

(* ================================================================== *)
(** * Typed buffers *)

(** The routines receive two untyped pointers and index them as arrays of
    [T]. A heap is the array of [T] cells both pointers point into; a pointer
    is the index of the cell it points to, so that [typedSrc[k]] is cell
    [typedSrc + k], and two pointers may be equal or overlap. An access
    outside the heap, or a conversion whose result is undefined, makes the
    run undefined ([None]). *)
Definition Prog (T A : Type) : Type := list T -> option (A * list T).

Global Instance Prog_ret {T} : MRet (Prog T) := fun A a h => Some (a, h).

Global Instance Prog_bind {T} : MBind (Prog T) := fun A B k m h =>
  match m h with
  | Some (a, h') => k a h'
  | None => None
  end.

Section HeapOps.
Context {T : Type}.
Local Open Scope nat_scope.

Definition load (p : nat) : Prog T T :=
  fun h => match h !! p with Some x => Some (x, h) | None => None end.

Definition store (p : nat) (v : T) : Prog T unit :=
  fun h => if decide (p < length h) then Some (tt, <[p:=v]> h) else None.

(** A value whose computation may be undefined. *)
Definition defined {A} (o : option A) : Prog T A :=
  fun h => match o with Some a => Some (a, h) | None => None end.

(** [for (size_t i = first; i < first + count; i++) body(i)] *)
Fixpoint for_ (first count : nat) (body : nat -> Prog T unit) : Prog T unit :=
  match count with
  | O => mret tt
  | S count' => body first ;; for_ (S first) count' body
  end.

(** [size_t i = n; while (i--) body(i)] *)
Fixpoint while_decr (n : nat) (body : nat -> Prog T unit) : Prog T unit :=
  match n with
  | O => mret tt
  | S i => body i ;; while_decr i body
  end.

(** The final heap of a run. *)
Definition exec (m : Prog T unit) (h : list T) : option (list T) :=
  snd <$> m h.
End HeapOps.

Section Expansion.
Local Open Scope nat_scope.

Definition _ConvertRGBToRGBA (T : ctype) (typedSrc : nat) (numTexels : nat)
    (typedDst : nat) : Prog (val T) unit :=
  (* Going backward so that we can convert in place. *)
  while_decr numTexels (fun i =>
    x ← load (typedSrc + (3 * i + 0)); store (typedDst + (4 * i + 0)) x ;;
    x ← load (typedSrc + (3 * i + 1)); store (typedDst + (4 * i + 1)) x ;;
    x ← load (typedSrc + (3 * i + 2)); store (typedDst + (4 * i + 2)) x ;;
    store (typedDst + (4 * i + 3)) (_OpaqueAlpha T)).

(** The source channel of texel [i] that an in-place run
    ([typedSrc = typedDst]) ends up storing in channel [k] of that texel:
    the store to cell [4 * i] precedes the loads of cells [3 * i + 1] and
    [3 * i + 2], which are cell [4 * i] or after it when [i] is 1 or 2. *)
Definition in_place_channel (i k : nat) : nat :=
  match i, k with
  | 1, _ => 0
  | 2, 2 => 0
  | _, _ => k
  end.
End Expansion.

(* ================================================================== *)
(** * Floating-point arithmetic *)

Section Format.
Variables prec emax : Z.

(** Conversion of an integer, rounding to nearest even. *)
Definition SFof_Z (z : Z) : spec_float := binary_normalize prec emax z 0 false.

(** Conversion of a floating-point datum of another binary format. *)
Definition SFof_float (x : spec_float) : spec_float :=
  match x with
  | S754_finite s m e => binary_round prec emax s m e
  | _ => x
  end.

(** The value of the decimal literal [n / 10^k]. *)
Definition SFdecimal (n : Z) (k : Z) : spec_float :=
  SFdiv prec emax (SFof_Z n) (SFof_Z (10 ^ k)).
End Format.

(** Truncation toward zero; infinities and NaN have no integer part. *)
Definition SFtruncate (x : spec_float) : option Z :=
  match x with
  | S754_zero _ => Some 0
  | S754_finite s m e =>
      Some (cond_Zopp s (match e with
                         | Zneg k => Z.shiftr (Zpos m) (Zpos k)
                         | _ => Z.shiftl (Zpos m) e
                         end))
  | _ => None
  end.

(** The implicit conversion of a floating-point value to the integer type
    [T]: the fractional part is discarded; the behaviour is undefined if the
    truncated value cannot be represented in [T]. *)
Definition float_to_integral (T : integral) (x : spec_float) : option Z :=
  z ← SFtruncate x;
  if representableb T z then Some z else None.

Module f32.
Definition of_Z := SFof_Z 24 128.
Definition of_double := SFof_float 24 128.
Definition add := SFadd 24 128.
Definition mul := SFmul 24 128.
Definition div := SFdiv 24 128.
Definition ltb := SFltb.
Definition leb := SFleb.
Definition lit := SFdecimal 24 128.
Definition zero : spec_float := S754_zero false.
Definition one : spec_float := of_Z 1.
Definition half : spec_float := lit 5 1.
End f32.

Module f64.
Definition of_Z := SFof_Z 53 1024.
Definition of_float := SFof_float 53 1024.
Definition add := SFadd 53 1024.
Definition sub := SFsub 53 1024.
Definition mul := SFmul 53 1024.
Definition div := SFdiv 53 1024.
Definition leb := SFleb.
Definition lit := SFdecimal 53 1024.
Definition one : spec_float := of_Z 1.
End f64.

(** Modelled from the spec: GfClamp (pxr/base/gf/math.h is not under src/)
    clamps its first argument to the closed range given by the other two. *)
Definition GfClamp (value min max : spec_float) : spec_float :=
  if f32.ltb value min then min
  else if f32.ltb max value then max
  else value.

Inductive _ColorSpaceTransform : Set :=
  | _SRGBToLinear
  | _LinearToSRGB.

(** Multiplication of two elements of a floating-point type. [float]
    operands are multiplied in binary32; [GfHalf] operands are promoted to
    [float], multiplied there, and the product is converted back. *)
Definition multiply (T : floating) (x y : spec_float) : spec_float :=
  match T with
  | float => f32.mul x y
  | GfHalf => SFof_float 11 16 (f32.mul (f32.of_double x) (f32.of_double y))
  end.

Section Premultiply.
(** [pow] of the C library, on doubles. *)
Variable pow : spec_float -> spec_float -> spec_float.

Local Open Scope nat_scope.

(** Convert a [0, 1] value between color spaces. The literals are doubles,
    so the arithmetic on [in_] is done in double and the result is rounded
    to float when it is assigned to [out]. *)
Definition _ConvertColorSpace (colorSpaceTransform : _ColorSpaceTransform)
    (in_ : spec_float) : spec_float :=
  let out :=
    match colorSpaceTransform with
    | _SRGBToLinear =>
        if f64.leb (f64.of_float in_) (f64.lit 4045 5) then
          f32.of_double (f64.div (f64.of_float in_) (f64.lit 1292 2))
        else
          f32.of_double
            (pow (f64.div (f64.add (f64.of_float in_) (f64.lit 55 3))
                          (f64.lit 1055 3))
                 (f64.lit 24 1))
    | _LinearToSRGB =>
        if f64.leb (f64.of_float in_) (f64.lit 31308 7) then
          f32.of_double (f64.mul (f64.lit 1292 2) (f64.of_float in_))
        else
          f32.of_double
            (f64.sub
               (f64.mul (f64.lit 1055 3)
                        (pow (f64.of_float in_) (f64.div f64.one (f64.lit 24 1))))
               (f64.lit 55 3))
    end in
  GfClamp out f32.zero f32.one.

(** [static_cast<float>(typedSrc[4 * i + 3]) / max] for a texel whose alpha
    channel is [a]. *)
Definition alpha_ratio (T : integral) (a : Z) : spec_float :=
  f32.div (f32.of_Z a) (f32.of_Z (numeric_limits.max T)).

(** The value stored for one color channel [c] of a texel whose alpha
    channel is [a]: the body of the inner loop of [_PremultiplyAlpha]. *)
Definition premultiplied (T : integral) (isSRGB : bool) (c a : Z) : option Z :=
  let max := f32.of_Z (numeric_limits.max T) in
  let alpha := alpha_ratio T a in
  let p := f32.of_Z c in
  let p := if isSRGB
           then f32.mul max (_ConvertColorSpace _SRGBToLinear (f32.div p max))
           else p in
  let p := f32.mul p alpha in
  let p := if isSRGB
           then f32.mul max (_ConvertColorSpace _LinearToSRGB (f32.div p max))
           else p in
  float_to_integral T (f32.add p f32.half).

(** Pre-multiply alpha function to be used for integral types. *)
Definition _PremultiplyAlpha (T : integral) (isSRGB : bool) (typedSrc : nat)
    (numTexels : nat) (typedDst : nat) : Prog Z unit :=
  for_ 0 numTexels (fun i =>
    a ← load (typedSrc + (4 * i + 3));
    for_ 0 3 (fun j =>
      c ← load (typedSrc + (4 * i + j));
      v ← defined (premultiplied T isSRGB c a);
      store (typedDst + (4 * i + j)) v) ;;
    (* Only necessary when not converting in place. *)
    a' ← load (typedSrc + (4 * i + 3));
    store (typedDst + (4 * i + 3)) a').
End Premultiply.

Section PremultiplyFloat.
Local Open Scope nat_scope.

(** Pre-multiply alpha function to be used for floating point types. *)
Definition _PremultiplyAlphaFloat (T : floating) (typedSrc : nat)
    (numTexels : nat) (typedDst : nat) : Prog spec_float unit :=
  for_ 0 numTexels (fun i =>
    alpha ← load (typedSrc + (4 * i + 3));
    for_ 0 3 (fun j =>
      c ← load (typedSrc + (4 * i + j));
      store (typedDst + (4 * i + j)) (multiply T c alpha)) ;;
    a' ← load (typedSrc + (4 * i + 3));
    store (typedDst + (4 * i + 3)) a').
End PremultiplyFloat.

(* ================================================================== *)
(** * Vocabulary for the premultiply routines *)

(** [0 <= x <= 1] on floating-point data. *)
Definition in_unit_range (x : spec_float) : bool :=
  f32.leb f32.zero x && f32.leb x f32.one.

(** The premultiplied channel as the specification words it, for the routine
    without sRGB handling: the color as a float, times the ratio of alpha to
    the largest value of the type, plus one half, truncated. *)
Definition scaled_and_rounded (T : integral) (c a : Z) : option Z :=
  let alpha := f32.div (f32.of_Z a) (f32.of_Z (numeric_limits.max T)) in
  float_to_integral T (f32.add (f32.mul (f32.of_Z c) alpha) f32.half).

(** [f] holds on the [len] integers from [lo] on. *)
Fixpoint range_all (f : Z -> bool) (lo : Z) (len : positive) : bool :=
  match len with
  | xH => f lo
  | xO half => range_all f lo half && range_all f (lo + Zpos half) half
  | xI half =>
      f lo && range_all f (lo + 1) half && range_all f (lo + 1 + Zpos half) half
  end.

Section Texels.
Context {T : Type}.
Local Open Scope nat_scope.

(** The loop nest the two premultiply routines share, the computation
    [f c a] of a stored color channel left open. *)
Definition premultiply_texels (f : T -> T -> option T) (typedSrc : nat)
    (numTexels : nat) (typedDst : nat) : Prog T unit :=
  for_ 0 numTexels (fun i =>
    a ← load (typedSrc + (4 * i + 3));
    for_ 0 3 (fun j =>
      c ← load (typedSrc + (4 * i + j));
      v ← defined (f c a);
      store (typedDst + (4 * i + j)) v) ;;
    a' ← load (typedSrc + (4 * i + 3));
    store (typedDst + (4 * i + 3)) a').

(** Texel [i] of the destination in [h'] is texel [i] of the source in [h]
    with its color channels replaced by [f c a] and its alpha copied. *)
Definition texel_premultiplied (f : T -> T -> option T) (src dst : nat)
    (h h' : list T) (i : nat) : Prop :=
  exists a,
    h !! (src + (4 * i + 3)) = Some a
    /\ h' !! (dst + (4 * i + 3)) = Some a
    /\ forall j, j < 3 ->
         exists c v,
           h !! (src + (4 * i + j)) = Some c
           /\ f c a = Some v
           /\ h' !! (dst + (4 * i + j)) = Some v.

(** Some color channel of texel [i] of the source in [h] has no defined
    premultiplied value. *)
Definition texel_undefined (f : T -> T -> option T) (src : nat)
    (h : list T) (i : nat) : Prop :=
  exists j c a,
    j < 3
    /\ h !! (src + (4 * i + j)) = Some c
    /\ h !! (src + (4 * i + 3)) = Some a
    /\ f c a = None.

(** Source and destination of [n] four-channel texels are the same buffer
    or do not overlap. *)
Definition same_or_apart (src dst n : nat) : Prop :=
  src = dst \/ src + 4 * n <= dst \/ dst + 4 * n <= src.
End Texels.

(* ================================================================== *)
(** * Vocabulary for the sRGB round trip *)

(** [pow] belongs to the C library and is not the program's: the round trip
    is stated for any [pow] whose two calls return doubles close to the exact
    powers. The exponents the program passes are the doubles nearest to 2.4
    and to 1/2.4; the exact powers meant are [x^(12/5)] and [x^(5/12)], which
    are compared through integer powers only: [r <= x^(num/den)] is
    [r^den <= x^num]. *)













(* ------------------------------------------------------------------ *)
(** ** Enumerating the doubles close to a power *)










Definition spec_float_eqb (x y : spec_float) : bool :=
  match x, y with
  | S754_zero s, S754_zero s' => Bool.eqb s s'
  | S754_infinity s, S754_infinity s' => Bool.eqb s s'
  | S754_nan, S754_nan => true
  | S754_finite s m e, S754_finite s' m' e' =>
      Bool.eqb s s' && Pos.eqb m m' && Z.eqb e e'
  | _, _ => false
  end.




(* ================================================================== *)
(** * Properties of the format selector *)

Section Selector.
Import HdStTextureUtils.

Implicit Types (p a : bool) (s : Env) (h : HioFormat).

(** The diagnostics of a call extend those issued before it. *)
Lemma GetHgiFormat_issued_extends h p a s :
  exists new, issued (snd (GetHgiFormat h p a s)) = issued s ++ new
              /\ (length new <= 1)%nat.
Proof.
  destruct h, p, a; cbn;
    first [ exists []; rewrite app_nil_r; split; [reflexivity | cbn; lia]
          | eexists [_]; split; [reflexivity | cbn; lia] ].
Qed.

(** The return value does not depend on the state the call starts in. *)
Lemma GetHgiFormat_result_state_independent h p a s1 s2 :
  fst (GetHgiFormat h p a s1) = fst (GetHgiFormat h p a s2).
Proof. destruct h, p, a; reflexivity. Qed.
End Selector.

(** C3: the three 3-channel normalized-integer formats (UNorm8, SNorm8 and
    sRGB UNorm8) always yield their 4-channel target format and store the
    RGB-to-RGBA expansion of their element type, whatever the two flags are,
    without issuing a diagnostic. *)
Theorem normalized_vec3_always_expands :
  forall (premultiplyAlpha avoidThreeComponentFormats : bool) (s : Env),
    HdStTextureUtils.GetHgiFormat HioFormatUNorm8Vec3
        premultiplyAlpha avoidThreeComponentFormats s
      = (HgiFormatUNorm8Vec4, mkEnv (Fn_ConvertRGBToRGBA unsigned_char) (issued s))
    /\ HdStTextureUtils.GetHgiFormat HioFormatSNorm8Vec3
        premultiplyAlpha avoidThreeComponentFormats s
      = (HgiFormatSNorm8Vec4, mkEnv (Fn_ConvertRGBToRGBA signed_char) (issued s))
    /\ HdStTextureUtils.GetHgiFormat HioFormatUNorm8Vec3srgb
        premultiplyAlpha avoidThreeComponentFormats s
      = (HgiFormatUNorm8Vec4srgb, mkEnv (Fn_ConvertRGBToRGBA unsigned_char) (issued s)).
Proof. intros p a s. repeat split. Qed.

(** C4: for the 3-channel half, float, uint16 and int32 formats the selector
    yields the 4-channel target and stores the expansion of the element type
    when [avoidThreeComponentFormats] is set, and otherwise yields the
    3-channel target and leaves the state (variable and diagnostics) as it
    was. *)
Theorem float_int_vec3_expand_iff_avoid :
  forall (premultiplyAlpha avoidThreeComponentFormats : bool) (s : Env),
    HdStTextureUtils.GetHgiFormat HioFormatFloat16Vec3
        premultiplyAlpha avoidThreeComponentFormats s
      = (if avoidThreeComponentFormats
         then (HgiFormatFloat16Vec4, mkEnv (Fn_ConvertRGBToRGBA GfHalf) (issued s))
         else (HgiFormatFloat16Vec3, s))
    /\ HdStTextureUtils.GetHgiFormat HioFormatFloat32Vec3
        premultiplyAlpha avoidThreeComponentFormats s
      = (if avoidThreeComponentFormats
         then (HgiFormatFloat32Vec4, mkEnv (Fn_ConvertRGBToRGBA float) (issued s))
         else (HgiFormatFloat32Vec3, s))
    /\ HdStTextureUtils.GetHgiFormat HioFormatUInt16Vec3
        premultiplyAlpha avoidThreeComponentFormats s
      = (if avoidThreeComponentFormats
         then (HgiFormatUInt16Vec4, mkEnv (Fn_ConvertRGBToRGBA uint16_t) (issued s))
         else (HgiFormatUInt16Vec3, s))
    /\ HdStTextureUtils.GetHgiFormat HioFormatInt32Vec3
        premultiplyAlpha avoidThreeComponentFormats s
      = (if avoidThreeComponentFormats
         then (HgiFormatInt32Vec4, mkEnv (Fn_ConvertRGBToRGBA int32_t) (issued s))
         else (HgiFormatInt32Vec3, s)).
Proof. intros p [] s; repeat split. Qed.

(** C7: every recognized but unsupported format (the double formats, the
    signed 16-bit formats, the unsigned 32-bit formats, one- and two-channel
    sRGB) makes the selector issue exactly one warning, return
    [HgiFormatInvalid] and leave the out-parameter's variable as it was, for
    all values of the two flags; called with the variable null, no
    transformation is observed. *)
Theorem unsupported_formats_warn_and_fail :
  Forall
    (fun h =>
       forall (premultiplyAlpha avoidThreeComponentFormats : bool) (s : Env),
         (exists msg,
            HdStTextureUtils.GetHgiFormat h premultiplyAlpha
                avoidThreeComponentFormats s
              = (HgiFormatInvalid, mkEnv (pointee s) (issued s ++ [TF_WARN_msg msg])))
         /\ (exists msg,
               Select h premultiplyAlpha avoidThreeComponentFormats
                 = (HgiFormatInvalid, nullptr, [TF_WARN_msg msg])))
    [ HioFormatDouble64; HioFormatDouble64Vec2; HioFormatDouble64Vec3; HioFormatDouble64Vec4;
      HioFormatInt16; HioFormatInt16Vec2; HioFormatInt16Vec3; HioFormatInt16Vec4;
      HioFormatUInt32; HioFormatUInt32Vec2; HioFormatUInt32Vec3; HioFormatUInt32Vec4;
      HioFormatUNorm8srgb; HioFormatUNorm8Vec2srgb ].
Proof.
  repeat (apply List.Forall_cons; [intros p a s; split; eexists; reflexivity |]).
  apply List.Forall_nil.
Qed.

(** C8: [HioFormatInvalid] yields [HgiFormatInvalid] and changes nothing (no
    diagnostic, the variable untouched); [HioFormatCount] and every value
    that is no enumerator yield [HgiFormatInvalid] after exactly one
    coding-error diagnostic, which is not a warning. *)
Theorem invalid_and_out_of_enumeration :
  forall (premultiplyAlpha avoidThreeComponentFormats : bool) (s : Env),
    HdStTextureUtils.GetHgiFormat HioFormatInvalid
        premultiplyAlpha avoidThreeComponentFormats s
      = (HgiFormatInvalid, s)
    /\ Select HioFormatInvalid premultiplyAlpha avoidThreeComponentFormats
      = (HgiFormatInvalid, nullptr, [])
    /\ (exists d,
          HdStTextureUtils.GetHgiFormat HioFormatCount
              premultiplyAlpha avoidThreeComponentFormats s
            = (HgiFormatInvalid, mkEnv (pointee s) (issued s ++ [d]))
          /\ is_coding_error d = true /\ is_warning d = false)
    /\ (forall raw : Z,
          exists d,
            HdStTextureUtils.GetHgiFormat (HioFormat_cast raw)
                premultiplyAlpha avoidThreeComponentFormats s
              = (HgiFormatInvalid, mkEnv (pointee s) (issued s ++ [d]))
            /\ is_coding_error d = true /\ is_warning d = false).
Proof.
  intros p a s. split; [reflexivity | split; [reflexivity | split]].
  - eexists. split; [reflexivity | split; reflexivity].
  - intros raw. eexists. split; [reflexivity | split; reflexivity].
Qed.

(** C9: every block-compressed format (BC6 signed and unsigned float, BC7
    and its sRGB variant, BC1, BC3) yields the target of the same name and
    leaves the state as it was, for all values of the flags: no routine is
    stored, even with [premultiplyAlpha] set. *)
Theorem block_compressed_pass_through :
  Forall
    (fun '(h, g) =>
       forall (premultiplyAlpha avoidThreeComponentFormats : bool) (s : Env),
         HdStTextureUtils.GetHgiFormat h premultiplyAlpha
             avoidThreeComponentFormats s = (g, s)
         /\ Select h premultiplyAlpha avoidThreeComponentFormats = (g, nullptr, []))
    [ (HioFormatBC6FloatVec3, HgiFormatBC6FloatVec3);
      (HioFormatBC6UFloatVec3, HgiFormatBC6UFloatVec3);
      (HioFormatBC7UNorm8Vec4, HgiFormatBC7UNorm8Vec4);
      (HioFormatBC7UNorm8Vec4srgb, HgiFormatBC7UNorm8Vec4srgb);
      (HioFormatBC1UNorm8Vec4, HgiFormatBC1UNorm8Vec4);
      (HioFormatBC3UNorm8Vec4, HgiFormatBC3UNorm8Vec4) ].
Proof.
  repeat (apply List.Forall_cons; [intros p a s; split; reflexivity |]).
  apply List.Forall_nil.
Qed.

(** C10: the variable behind [conversionFunction] is written only where a
    routine is selected. With [f] the routine a caller observes from a null
    variable: [f] is non-null exactly for the always-expanded 3-channel
    formats, for the flag-expanded 3-channel formats with
    [avoidThreeComponentFormats], and for the seven uncompressed 4-channel
    formats with [premultiplyAlpha]; then the call stores [f]; in every other
    case the variable keeps whatever it held, and is not reset to null. *)
Theorem conversionFunction_written_only_when_selected :
  forall (h : HioFormat) (premultiplyAlpha avoidThreeComponentFormats : bool) (s : Env),
    let f := snd (fst (Select h premultiplyAlpha avoidThreeComponentFormats)) in
    let s' := snd (HdStTextureUtils.GetHgiFormat h premultiplyAlpha
                     avoidThreeComponentFormats s) in
    (f <> nullptr <->
       In h [HioFormatUNorm8Vec3; HioFormatSNorm8Vec3; HioFormatUNorm8Vec3srgb]
       \/ (In h [HioFormatFloat16Vec3; HioFormatFloat32Vec3;
                 HioFormatUInt16Vec3; HioFormatInt32Vec3]
           /\ avoidThreeComponentFormats = true)
       \/ (In h [HioFormatUNorm8Vec4; HioFormatSNorm8Vec4; HioFormatFloat16Vec4;
                 HioFormatFloat32Vec4; HioFormatUInt16Vec4; HioFormatInt32Vec4;
                 HioFormatUNorm8Vec4srgb]
           /\ premultiplyAlpha = true))
    /\ pointee s' = (match f with nullptr => pointee s | _ => f end).
Proof.
  intros h p a s f s'. subst f s'. split.
  - split.
    + intros Hf.
      destruct h, p, a; cbn in Hf; try congruence; cbn; intuition congruence.
    + intros [H | [[H ->] | [H ->]]]; cbn in H;
        repeat (destruct H as [<- | H]; [destruct p, a; cbn; congruence |]);
        try contradiction;
        repeat (destruct H as [<- | H]; [destruct p; cbn; congruence |]);
        try contradiction;
        repeat (destruct H as [<- | H]; [destruct a; cbn; congruence |]);
        contradiction.
  - destruct h, p, a; reflexivity.
Qed.

(* ================================================================== *)
(** * Running programs over a heap *)

Section HeapFacts.
Context {T : Type}.
Implicit Types (h : list T) (p q : nat) (v : T).
Local Open Scope nat_scope.

Lemma run_bind {A B} (m : Prog T A) (k : A -> Prog T B) h :
  (m ≫= k) h = match m h with Some (a, h') => k a h' | None => None end.
Proof. reflexivity. Qed.

Lemma run_ret {A} (a : A) h : (mret a : Prog T A) h = Some (a, h).
Proof. reflexivity. Qed.

Lemma run_load h p x : h !! p = Some x -> load p h = Some (x, h).
Proof. unfold load. intros ->. reflexivity. Qed.

Lemma run_load_oob h p : length h <= p -> load p h = None.
Proof. unfold load. intros H. rewrite (lookup_ge_None_2 h p H). reflexivity. Qed.

Lemma run_store h p v : p < length h -> store p v h = Some (tt, <[p:=v]> h).
Proof. unfold store. intros H. destruct (decide (p < length h)); [reflexivity | lia]. Qed.

Lemma run_store_oob h p v : length h <= p -> store p v h = None.
Proof. unfold store. intros H. destruct (decide (p < length h)); [lia | reflexivity]. Qed.

Lemma run_defined {A} (o : option A) h :
  defined o h = match o with Some a => Some (a, h) | None => None end.
Proof. reflexivity. Qed.

Lemma for_succ first count body :
  for_ first (S count) body = (body first ;; for_ (S first) count body : Prog T unit).
Proof. reflexivity. Qed.

Lemma while_decr_succ n body :
  while_decr (S n) body = (body n ;; while_decr n body : Prog T unit).
Proof. reflexivity. Qed.

(** Reading a cell after a write to another one. *)
Lemma lookup_insert_other h p q v : p <> q -> <[p:=v]> h !! q = h !! q.
Proof. intros H. apply list_lookup_insert_ne. exact H. Qed.

Lemma lookup_insert_same h p q v :
  p = q -> p < length h -> <[p:=v]> h !! q = Some v.
Proof. intros <- H. apply list_lookup_insert_eq. exact H. Qed.
End HeapFacts.

(** One iteration of [_ConvertRGBToRGBA]: the four stores in program order,
    each load reading the heap as the stores before it left it. *)
Lemma expand_texel_run (T : ctype) (h : list (val T)) (s d : nat) :
  (s + 2 < length h)%nat -> (d + 3 < length h)%nat ->
  exists x0 x1 x2,
    h !! s = Some x0
    /\ <[d:=x0]> h !! (s + 1)%nat = Some x1
    /\ <[(d + 1)%nat:=x1]> (<[d:=x0]> h) !! (s + 2)%nat = Some x2
    /\ (x ← load s; store d x ;;
        x ← load (s + 1)%nat; store (d + 1)%nat x ;;
        x ← load (s + 2)%nat; store (d + 2)%nat x ;;
        store (d + 3)%nat (_OpaqueAlpha T)) h
       = Some (tt, <[(d + 3)%nat:=_OpaqueAlpha T]>
                     (<[(d + 2)%nat:=x2]> (<[(d + 1)%nat:=x1]> (<[d:=x0]> h)))).
Proof.
  intros Hs Hd.
  destruct (lookup_lt_is_Some_2 h s ltac:(lia)) as [x0 H0].
  destruct (lookup_lt_is_Some_2 (<[d:=x0]> h) (s + 1)%nat
              ltac:(rewrite length_insert; lia)) as [x1 H1].
  destruct (lookup_lt_is_Some_2 (<[(d + 1)%nat:=x1]> (<[d:=x0]> h)) (s + 2)%nat
              ltac:(rewrite !length_insert; lia)) as [x2 H2].
  exists x0, x1, x2. repeat split; try assumption.
  rewrite run_bind, (run_load _ _ _ H0).
  rewrite run_bind, run_store by lia.
  rewrite run_bind, (run_load _ _ _ H1).
  rewrite run_bind, run_store by (rewrite length_insert; lia).
  rewrite run_bind, (run_load _ _ _ H2).
  rewrite run_bind, run_store by (rewrite !length_insert; lia).
  rewrite run_store by (rewrite !length_insert; lia).
  reflexivity.
Qed.

(** Lookups through a stack of single-cell updates, the indices compared by
    linear arithmetic. *)
Ltac lookup_updates :=
  repeat first
    [ rewrite list_lookup_insert_ne by lia
    | rewrite lookup_insert_same by (rewrite ?length_insert; lia) ].

(** X6: expansion between buffers that do not overlap: every texel receives its
    three source channels and the opaque alpha, and no cell outside the
    destination changes. *)
Lemma ConvertRGBToRGBA_disjoint (T : ctype) (src dst : nat) :
  forall (n : nat) (h : list (val T)),
    (src + 3 * n <= length h)%nat -> (dst + 4 * n <= length h)%nat ->
    (src + 3 * n <= dst \/ dst + 4 * n <= src)%nat ->
    exists h',
      exec (_ConvertRGBToRGBA T src n dst) h = Some h'
      /\ length h' = length h
      /\ (forall i k, (i < n)%nat -> (k < 3)%nat ->
            h' !! (dst + (4 * i + k))%nat = h !! (src + (3 * i + k))%nat)
      /\ (forall i, (i < n)%nat ->
            h' !! (dst + (4 * i + 3))%nat = Some (_OpaqueAlpha T))
      /\ (forall q, (q < dst \/ dst + 4 * n <= q)%nat -> h' !! q = h !! q).
Proof.
  unfold exec, _ConvertRGBToRGBA.
  induction n as [|m IH]; intros h Hs Hd Hdis.
  - exists h. cbn. repeat split; intros; try lia; reflexivity.
  - rewrite while_decr_succ, run_bind.
    destruct (expand_texel_run T h (src + 3 * m) (dst + 4 * m) ltac:(lia) ltac:(lia))
      as (x0 & x1 & x2 & H0 & H1 & H2 & Hrun).
    replace (src + (3 * m + 0))%nat with (src + 3 * m)%nat by lia.
    replace (src + (3 * m + 1))%nat with (src + 3 * m + 1)%nat by lia.
    replace (src + (3 * m + 2))%nat with (src + 3 * m + 2)%nat by lia.
    replace (dst + (4 * m + 0))%nat with (dst + 4 * m)%nat by lia.
    replace (dst + (4 * m + 1))%nat with (dst + 4 * m + 1)%nat by lia.
    replace (dst + (4 * m + 2))%nat with (dst + 4 * m + 2)%nat by lia.
    replace (dst + (4 * m + 3))%nat with (dst + 4 * m + 3)%nat by lia.
    rewrite Hrun. clear Hrun.
    rewrite list_lookup_insert_ne in H1 by lia.
    rewrite !list_lookup_insert_ne in H2 by lia.
    set (h1 := <[_:=_]> (<[_:=_]> (<[_:=_]> (<[_:=_]> h)))).
    assert (Hlen : length h1 = length h) by (unfold h1; rewrite !length_insert; reflexivity).
    destruct (IH h1) as (h' & Hex & Hl & Hch & Hop & Hfr); try lia.
    exists h'. split; [exact Hex |]. split; [lia |]. repeat split.
    + intros i k Hi Hk.
      destruct (decide (i = m)) as [-> | Hne].
      * rewrite Hfr by lia. unfold h1.
        assert (k = 0 \/ k = 1 \/ k = 2)%nat as [-> | [-> | ->]] by lia;
          lookup_updates.
        -- rewrite <- H0. f_equal. lia.
        -- rewrite <- H1. f_equal. lia.
        -- rewrite <- H2. f_equal. lia.
      * rewrite Hch by lia. unfold h1. lookup_updates. reflexivity.
    + intros i Hi.
      destruct (decide (i = m)) as [-> | Hne].
      * rewrite Hfr by lia. unfold h1.
        replace (dst + (4 * m + 3))%nat with (dst + 4 * m + 3)%nat by lia.
        lookup_updates. reflexivity.
      * apply Hop. lia.
    + intros q Hq. rewrite Hfr by lia. unfold h1. lookup_updates. reflexivity.
Qed.

(** X7: expansion in place ([typedSrc = typedDst]): texel [i] receives the
    source channels [in_place_channel i k] of texel [i], so texels 0 and
    3, 4, ... are expanded as intended, texel 1 receives its first channel
    three times and texel 2 receives its first channel in place of its
    third. *)
Lemma ConvertRGBToRGBA_in_place (T : ctype) (p : nat) :
  forall (n : nat) (h : list (val T)),
    (p + 4 * n <= length h)%nat ->
    exists h',
      exec (_ConvertRGBToRGBA T p n p) h = Some h'
      /\ length h' = length h
      /\ (forall i k, (i < n)%nat -> (k < 3)%nat ->
            h' !! (p + (4 * i + k))%nat
            = h !! (p + (3 * i + in_place_channel i k))%nat)
      /\ (forall i, (i < n)%nat ->
            h' !! (p + (4 * i + 3))%nat = Some (_OpaqueAlpha T))
      /\ (forall q, (q < p \/ p + 4 * n <= q)%nat -> h' !! q = h !! q).
Proof.
  unfold exec, _ConvertRGBToRGBA.
  induction n as [|m IH]; intros h Hb.
  - exists h. cbn. repeat split; intros; try lia; reflexivity.
  - rewrite while_decr_succ, run_bind.
    destruct (expand_texel_run T h (p + 3 * m) (p + 4 * m) ltac:(lia) ltac:(lia))
      as (x0 & x1 & x2 & H0 & H1 & H2 & Hrun).
    replace (p + (3 * m + 0))%nat with (p + 3 * m)%nat by lia.
    replace (p + (3 * m + 1))%nat with (p + 3 * m + 1)%nat by lia.
    replace (p + (3 * m + 2))%nat with (p + 3 * m + 2)%nat by lia.
    replace (p + (4 * m + 0))%nat with (p + 4 * m)%nat by lia.
    replace (p + (4 * m + 1))%nat with (p + 4 * m + 1)%nat by lia.
    replace (p + (4 * m + 2))%nat with (p + 4 * m + 2)%nat by lia.
    replace (p + (4 * m + 3))%nat with (p + 4 * m + 3)%nat by lia.
    rewrite Hrun. clear Hrun.
    set (h1 := <[_:=_]> (<[_:=_]> (<[_:=_]> (<[_:=_]> h)))).
    assert (Hlen : length h1 = length h) by (unfold h1; rewrite !length_insert; reflexivity).
    destruct (IH h1) as (h' & Hex & Hl & Hch & Hop & Hfr); try lia.
    exists h'. split; [exact Hex |]. split; [lia |]. repeat split.
    + intros i k Hi Hk.
      destruct (decide (i = m)) as [-> | Hne].
      * rewrite Hfr by lia. unfold h1.
        assert (k = 0 \/ k = 1 \/ k = 2)%nat as [-> | [-> | ->]] by lia.
        -- lookup_updates. rewrite <- H0. f_equal.
           destruct m as [|[|[|m]]]; cbn; lia.
        -- lookup_updates.
           destruct m as [|[|[|m]]]; cbn [in_place_channel];
             rewrite <- ?H0, <- ?H1; revert H1; lookup_updates; intros H1;
             try (rewrite <- H1); try (inversion H1; subst; rewrite <- H0);
             f_equal; lia.
        -- lookup_updates.
           destruct m as [|[|[|m]]]; cbn [in_place_channel];
             revert H1 H2; lookup_updates; intros H1 H2;
             try (rewrite <- H2);
             try (inversion H2; subst; try (inversion H1; subst); rewrite <- H0);
             f_equal; lia.
      * rewrite Hch by lia. unfold h1.
        assert (in_place_channel i k <= 2)%nat
          by (destruct i as [|[|[|i]]]; destruct k as [|[|[|k]]]; cbn; lia).
        lookup_updates. reflexivity.
    + intros i Hi.
      destruct (decide (i = m)) as [-> | Hne].
      * rewrite Hfr by lia. unfold h1. lookup_updates. reflexivity.
      * apply Hop. lia.
    + intros q Hq. rewrite Hfr by lia. unfold h1. lookup_updates. reflexivity.
Qed.

(* ================================================================== *)
(** * The premultiply loop nest *)

Section TexelLoop.
Context {T : Type}.
Variable f : T -> T -> option T.
Variables src dst n : nat.
Hypothesis Halias : same_or_apart src dst n.
Local Open Scope nat_scope.

Let body (i : nat) : Prog T unit :=
  a ← load (src + (4 * i + 3));
  for_ 0 3 (fun j =>
    c ← load (src + (4 * i + j));
    v ← defined (f c a);
    store (dst + (4 * i + j)) v) ;;
  a' ← load (src + (4 * i + 3));
  store (dst + (4 * i + 3)) a'.

(** One texel: either some channel is undefined and so is the run, or the
    texel is premultiplied and nothing outside it is written. *)
Lemma premultiply_texel_run (h : list T) (i : nat) :
  i < n -> src + 4 * n <= length h -> dst + 4 * n <= length h ->
  match body i h with
  | Some (_, h') =>
      length h' = length h
      /\ texel_premultiplied f src dst h h' i
      /\ (forall q, q < dst + 4 * i \/ dst + 4 * i + 4 <= q -> h' !! q = h !! q)
  | None => texel_undefined f src h i
  end.
Proof.
  intros Hi Hs Hd. unfold body.
  destruct (lookup_lt_is_Some_2 h (src + (4 * i + 0)) ltac:(lia)) as [c0 H0].
  destruct (lookup_lt_is_Some_2 h (src + (4 * i + 1)) ltac:(lia)) as [c1 H1].
  destruct (lookup_lt_is_Some_2 h (src + (4 * i + 2)) ltac:(lia)) as [c2 H2].
  destruct (lookup_lt_is_Some_2 h (src + (4 * i + 3)) ltac:(lia)) as [a H3].
  assert (Hal := Halias). unfold same_or_apart in Hal.
  rewrite run_bind, (run_load _ _ _ H3).
  rewrite !for_succ. cbn [for_].
  rewrite run_bind, run_bind, run_bind, (run_load _ _ _ H0), run_bind, run_defined.
  destruct (f c0 a) as [v0|] eqn:F0;
    [| exists 0, c0, a; repeat split; [lia | assumption ..]].
  rewrite run_store by lia.
  rewrite run_bind, run_bind.
  rewrite (run_load _ _ c1) by (lookup_updates; exact H1).
  rewrite run_bind, run_defined.
  destruct (f c1 a) as [v1|] eqn:F1;
    [| exists 1, c1, a; repeat split; [lia | assumption ..]].
  rewrite run_store by (rewrite !length_insert; lia).
  rewrite run_bind, run_bind.
  rewrite (run_load _ _ c2) by (lookup_updates; exact H2).
  rewrite run_bind, run_defined.
  destruct (f c2 a) as [v2|] eqn:F2;
    [| exists 2, c2, a; repeat split; [lia | assumption ..]].
  rewrite run_store by (rewrite !length_insert; lia).
  rewrite run_ret, run_bind.
  rewrite (run_load _ _ a) by (lookup_updates; exact H3).
  rewrite run_store by (rewrite !length_insert; lia).
  split; [rewrite !length_insert; reflexivity |]. split.
  - exists a. split; [exact H3 |]. split; [lookup_updates; reflexivity |].
    intros j Hj.
    assert (j = 0 \/ j = 1 \/ j = 2) as [-> | [-> | ->]] by lia.
    + exists c0, v0. repeat split; try assumption. lookup_updates. reflexivity.
    + exists c1, v1. repeat split; try assumption. lookup_updates. reflexivity.
    + exists c2, v2. repeat split; try assumption. lookup_updates. reflexivity.
  - intros q Hq. lookup_updates. reflexivity.
Qed.

(** The texels [k .. k + m - 1], processed in increasing order. *)
Lemma premultiply_loop_run :
  forall (m k : nat) (h : list T),
    k + m <= n -> src + 4 * n <= length h -> dst + 4 * n <= length h ->
    match for_ k m body h with
    | Some (_, h') =>
        length h' = length h
        /\ (forall i, k <= i < k + m -> texel_premultiplied f src dst h h' i)
        /\ (forall q, q < dst + 4 * k \/ dst + 4 * (k + m) <= q -> h' !! q = h !! q)
    | None => exists i, k <= i < k + m /\ texel_undefined f src h i
    end.
Proof.
  assert (Hal := Halias). unfold same_or_apart in Hal.
  induction m as [|m IH]; intros k h Hk Hs Hd.
  - cbn. split; [reflexivity |]. split; [intros i Hi; lia | reflexivity].
  - rewrite for_succ, run_bind.
    pose proof (premultiply_texel_run h k ltac:(lia) Hs Hd) as Hb.
    destruct (body k h) as [[[] h1]|]; [| exists k; split; [lia | exact Hb]].
    destruct Hb as (Hl1 & Hk1 & Hf1).
    specialize (IH (S k) h1 ltac:(lia) ltac:(lia) ltac:(lia)).
    destruct (for_ (S k) m body h1) as [[[] h']|].
    + destruct IH as (Hl & Ht & Hf).
      split; [lia |]. split.
      * intros i Hi.
        destruct (decide (i = k)) as [-> | Hne].
        -- destruct Hk1 as (a & Ha & Ha' & Hc).
           exists a. split; [exact Ha |]. split; [rewrite Hf by lia; exact Ha' |].
           intros j Hj. destruct (Hc j Hj) as (c & v & Hc1 & Hv & Hc2).
           exists c, v. repeat split; try assumption. rewrite Hf by lia. exact Hc2.
        -- destruct (Ht i ltac:(lia)) as (a & Ha & Ha' & Hc).
           exists a. split; [rewrite <- Hf1 by lia; exact Ha |].
           split; [exact Ha' |].
           intros j Hj. destruct (Hc j Hj) as (c & v & Hc1 & Hv & Hc2).
           exists c, v. repeat split; try assumption. rewrite <- Hf1 by lia. exact Hc1.
      * intros q Hq. rewrite Hf by lia. apply Hf1. lia.
    + destruct IH as (i & Hi & j & c & a & Hj & Hc & Ha & Hv).
      exists i. split; [lia |]. exists j, c, a.
      repeat split; try assumption; rewrite <- Hf1 by lia; assumption.
Qed.
End TexelLoop.

(** The whole buffer: the run is undefined exactly when some channel of some
    texel is, and otherwise premultiplies every texel and writes nothing but
    the destination. *)
Lemma premultiply_texels_run {T : Type} (f : T -> T -> option T)
    (src dst n : nat) (h : list T) :
  same_or_apart src dst n ->
  (src + 4 * n <= length h)%nat -> (dst + 4 * n <= length h)%nat ->
  match exec (premultiply_texels f src n dst) h with
  | Some h' =>
      length h' = length h
      /\ (forall i, (i < n)%nat -> texel_premultiplied f src dst h h' i)
      /\ (forall q, (q < dst \/ dst + 4 * n <= q)%nat -> h' !! q = h !! q)
  | None => exists i, (i < n)%nat /\ texel_undefined f src h i
  end.
Proof.
  intros Hal Hs Hd. unfold exec, premultiply_texels.
  pose proof (premultiply_loop_run f src dst n Hal n 0%nat h ltac:(lia) Hs Hd) as H.
  destruct (for_ 0 n _ h) as [[[] h']|]; cbn.
  - destruct H as (Hl & Ht & Hf). split; [exact Hl |]. split.
    + intros i Hi. apply Ht. lia.
    + intros q Hq. apply Hf. lia.
  - destruct H as (i & Hi & Hu). exists i. split; [lia | exact Hu].
Qed.

Lemma PremultiplyAlpha_unfold pow (T : integral) (isSRGB : bool) (src n dst : nat) :
  _PremultiplyAlpha pow T isSRGB src n dst
  = premultiply_texels (premultiplied pow T isSRGB) src n dst.
Proof. reflexivity. Qed.

Lemma PremultiplyAlphaFloat_unfold (T : floating) (src n dst : nat) :
  _PremultiplyAlphaFloat T src n dst
  = premultiply_texels (fun c a => Some (multiply T c a)) src n dst.
Proof. reflexivity. Qed.

(** Without sRGB handling [pow] is never called, and the stored channel is
    the scaled and rounded product. *)
Lemma premultiplied_linear pow (T : integral) (c a : Z) :
  premultiplied pow T false c a = scaled_and_rounded T c a.
Proof. reflexivity. Qed.

Lemma range_all_spec (f : Z -> bool) :
  forall (len : positive) (lo : Z),
    range_all f lo len = true ->
    forall z, lo <= z < lo + Zpos len -> f z = true.
Proof.
  induction len as [half IH | half IH |]; intros lo H z Hz; cbn in H.
  - apply andb_prop in H as [H H2]. apply andb_prop in H as [H0 H1].
    destruct (Z.eq_dec z lo) as [-> | Hne]; [exact H0 |].
    destruct (Z_lt_le_dec z (lo + 1 + Zpos half)).
    + apply (IH _ H1). lia.
    + apply (IH _ H2). lia.
  - apply andb_prop in H as [H1 H2].
    destruct (Z_lt_le_dec z (lo + Zpos half)).
    + apply (IH _ H1). lia.
    + apply (IH _ H2). lia.
  - assert (z = lo) as -> by lia. exact H.
Qed.

(** The opaque alpha of each element type: the largest value of an integer
    type, and the floating-point datum 1. *)
Lemma OpaqueAlpha_values :
  _OpaqueAlpha unsigned_char = 255
  /\ _OpaqueAlpha signed_char = 127
  /\ _OpaqueAlpha uint16_t = 65535
  /\ _OpaqueAlpha int32_t = 2147483647
  /\ _OpaqueAlpha float = S754_finite false 8388608 (-23)
  /\ _OpaqueAlpha GfHalf = S754_finite false 1024 (-10).
Proof. repeat split. Qed.

Lemma OpaqueAlpha_integral_greatest (T : integral) (z : Z) :
  representable T z -> z <= _OpaqueAlpha T.
Proof. intros [_ H]. exact H. Qed.

(** C1 (the code departs from it): run in place on the two texels
    [10,20,30, 40,50,60], in a buffer with room for the eight cells of the
    result, the expansion yields [10,20,30,255, 40,40,40,255] and not
    [10,20,30,255, 40,50,60,255]: the store to cell 4 precedes the loads of
    cells 4 and 5. *)
Theorem ConvertRGBToRGBA_in_place_two_texels :
  exec (_ConvertRGBToRGBA unsigned_char 0 2 0) [10; 20; 30; 40; 50; 60; 0; 0]
    = Some [10; 20; 30; 255; 40; 40; 40; 255]
  /\ exec (_ConvertRGBToRGBA unsigned_char 0 2 0) [10; 20; 30; 40; 50; 60; 0; 0]
    <> Some [10; 20; 30; 255; 40; 50; 60; 255].
Proof. split; [reflexivity | discriminate]. Qed.

(** C5: between buffers that coincide or do not overlap,
    [_PremultiplyAlphaFloat] is defined on every input and stores, for every
    texel, each color channel multiplied by the texel's alpha in the element
    type and the alpha itself, touching nothing else; for [float] the stored
    color is the binary32 product, with nothing applied to it afterwards. The
    texel (0.8, 0.4, 0.2, 0.5) becomes (0.4, 0.2, 0.1, 0.5), in [float] and
    in [GfHalf]. *)
Theorem PremultiplyAlphaFloat_multiplies_by_alpha :
  (forall (T : floating) (src dst n : nat) (h : list spec_float),
      same_or_apart src dst n ->
      (src + 4 * n <= length h)%nat -> (dst + 4 * n <= length h)%nat ->
      exists h',
        exec (_PremultiplyAlphaFloat T src n dst) h = Some h'
        /\ length h' = length h
        /\ (forall i, (i < n)%nat ->
              exists a,
                h !! (src + (4 * i + 3))%nat = Some a
                /\ h' !! (dst + (4 * i + 3))%nat = Some a
                /\ forall j, (j < 3)%nat ->
                     exists c,
                       h !! (src + (4 * i + j))%nat = Some c
                       /\ h' !! (dst + (4 * i + j))%nat = Some (multiply T c a))
        /\ (forall q, (q < dst \/ dst + 4 * n <= q)%nat -> h' !! q = h !! q))
  /\ (forall c a, multiply float c a = SFmul 24 128 c a)
  /\ exec (_PremultiplyAlphaFloat float 0 1 0)
       [f32.lit 8 1; f32.lit 4 1; f32.lit 2 1; f32.lit 5 1]
     = Some [f32.lit 4 1; f32.lit 2 1; f32.lit 1 1; f32.lit 5 1]
  /\ exec (_PremultiplyAlphaFloat GfHalf 0 1 0)
       [SFdecimal 11 16 8 1; SFdecimal 11 16 4 1; SFdecimal 11 16 2 1;
        SFdecimal 11 16 5 1]
     = Some [SFdecimal 11 16 4 1; SFdecimal 11 16 2 1; SFdecimal 11 16 1 1;
             SFdecimal 11 16 5 1].
Proof.
  split; [| split; [reflexivity | split; vm_compute; reflexivity]].
  intros T src dst n h Hal Hs Hd.
  rewrite PremultiplyAlphaFloat_unfold.
  pose proof (premultiply_texels_run (fun c a => Some (multiply T c a))
                src dst n h Hal Hs Hd) as H.
  destruct (exec _ h) as [h'|].
  - destruct H as (Hl & Ht & Hf). exists h'.
    split; [reflexivity |]. split; [exact Hl |]. split; [| exact Hf].
    intros i Hi. destruct (Ht i Hi) as (a & Ha & Ha' & Hc).
    exists a. split; [exact Ha |]. split; [exact Ha' |].
    intros j Hj. destruct (Hc j Hj) as (c & v & Hc1 & Hv & Hc2).
    exists c. split; [exact Hc1 |]. congruence.
  - destruct H as (i & _ & j & c & a & _ & _ & _ & Hv). discriminate.
Qed.

Lemma PremultiplyAlphaFloat_multiplies_by_alpha_witness :
  exists h',
    exec (_PremultiplyAlphaFloat float 0 2 0)
      [f32.lit 8 1; f32.lit 4 1; f32.lit 2 1; f32.lit 5 1;
       f32.of_Z 3; f32.of_Z 5; f32.of_Z 7; f32.of_Z 2] = Some h'
    /\ h' !! 4%nat = Some (f32.of_Z 6).
Proof.
  destruct (proj1 PremultiplyAlphaFloat_multiplies_by_alpha float 0%nat 0%nat 2%nat
              [f32.lit 8 1; f32.lit 4 1; f32.lit 2 1; f32.lit 5 1;
               f32.of_Z 3; f32.of_Z 5; f32.of_Z 7; f32.of_Z 2])
    as (h' & Hex & _ & Ht & _).
  - left. reflexivity.
  - cbn. lia.
  - cbn. lia.
  - exists h'. split; [exact Hex |].
    destruct (Ht 1%nat ltac:(lia)) as (a & Ha & _ & Hc).
    destruct (Hc 0%nat ltac:(lia)) as (c & Hc1 & Hc2).
    cbn in Ha, Hc1. inversion Ha; subst a. inversion Hc1; subst c.
    exact Hc2.
Defined.

(** On [unsigned char] the scaled and rounded product is always defined, and
    is the integer nearest to [c * a / 255]. *)
Lemma scaled_and_rounded_unsigned_char (c a : Z) :
  representable unsigned_char c -> representable unsigned_char a ->
  scaled_and_rounded unsigned_char c a = Some ((2 * c * a + 255) / 510).
Proof.
  intros Hc Ha.
  assert (H : range_all (fun c => range_all (fun a =>
                match scaled_and_rounded unsigned_char c a with
                | Some v => v =? (2 * c * a + 255) / 510
                | None => false
                end) 0 256) 0 256 = true) by (vm_compute; reflexivity).
  unfold representable in Hc, Ha. cbn in Hc, Ha.
  pose proof (range_all_spec _ _ _ H c ltac:(lia)) as H1. cbn beta in H1.
  pose proof (range_all_spec _ _ _ H1 a ltac:(lia)) as H2. cbn beta in H2.
  destruct (scaled_and_rounded unsigned_char c a) as [v|]; [| discriminate].
  apply Z.eqb_eq in H2. congruence.
Qed.

(** For the unsigned element types the ratio of alpha to the largest value
    lies between 0 and 1. *)
Lemma alpha_ratio_unsigned (T : integral) (a : Z) :
  numeric_limits.is_signed T = false -> representable T a ->
  in_unit_range (alpha_ratio T a) = true.
Proof.
  intros Hu Ha. destruct T; try discriminate; unfold representable in Ha; cbn in Ha.
  - assert (H : range_all (fun a => in_unit_range (alpha_ratio unsigned_char a)) 0 256 = true)
      by (vm_compute; reflexivity).
    apply (range_all_spec _ _ _ H). lia.
  - assert (H : range_all (fun a => in_unit_range (alpha_ratio uint16_t a)) 0 65536 = true)
      by (vm_compute; reflexivity).
    apply (range_all_spec _ _ _ H). lia.
Qed.

(* ================================================================== *)
(** * Conversion of integers to float, and division by a power of two *)

(** The number of bits of a positive number. *)
Lemma digits2_pos_bounds (m : positive) :
  2 ^ (Zpos (digits2_pos m) - 1) <= Zpos m < 2 ^ Zpos (digits2_pos m).
Proof.
  induction m as [m IH | m IH |]; cbn [digits2_pos].
  - rewrite Pos2Z.inj_succ.
    replace (Z.succ (Zpos (digits2_pos m)) - 1) with (Z.succ (Zpos (digits2_pos m) - 1)) by lia.
    rewrite !Z.pow_succ_r by lia. lia.
  - rewrite Pos2Z.inj_succ.
    replace (Z.succ (Zpos (digits2_pos m)) - 1) with (Z.succ (Zpos (digits2_pos m) - 1)) by lia.
    rewrite !Z.pow_succ_r by lia. lia.
  - cbn. lia.
Qed.

Lemma digits2_pos_unique (m : positive) (d : Z) :
  2 ^ (d - 1) <= Zpos m < 2 ^ d -> Zpos (digits2_pos m) = d.
Proof.
  intros [Hl Hu]. pose proof (digits2_pos_bounds m) as [Bl Bu].
  set (D := Zpos (digits2_pos m)) in *.
  assert (HD : 0 < D) by (unfold D; lia).
  assert (Hd : 0 < d).
  { destruct (Z_lt_le_dec 0 d) as [|Hn]; [assumption | exfalso].
    destruct (Z.eq_dec d 0) as [-> | Hne].
    - cbn in Hu. lia.
    - rewrite (Z.pow_neg_r 2 d) in Hu by lia. lia. }
  destruct (Z_lt_le_dec D d) as [H1 | H1].
  - exfalso. assert (2 ^ D <= 2 ^ (d - 1)) by (apply Z.pow_le_mono_r; lia). lia.
  - destruct (Z_lt_le_dec d D) as [H2 | H2]; [| lia].
    exfalso. assert (2 ^ d <= 2 ^ (D - 1)) by (apply Z.pow_le_mono_r; lia). lia.
Qed.

Lemma shr_1_m (r : shr_record) :
  0 <= shr_m r -> shr_m (shr_1 r) = shr_m r / 2.
Proof.
  destruct r as [m r s]. cbn [shr_m]. intros Hm.
  rewrite <- Z.div2_div.
  destruct m as [| [p | p |] | p]; try reflexivity. lia.
Qed.

Lemma iter_shr_1_m (n : positive) :
  forall r : shr_record,
    0 <= shr_m r -> shr_m (SpecFloat.iter_pos shr_1 n r) = shr_m r / 2 ^ Zpos n.
Proof.
  assert (Hdiv : forall a b, 0 <= a -> 0 < b -> 0 <= a / b)
    by (intros; apply Z.div_pos; lia).
  induction n as [n IH | n IH |]; intros r Hr; cbn [SpecFloat.iter_pos].
  - assert (H1 : 0 <= shr_m (shr_1 r)) by (rewrite shr_1_m by lia; apply Hdiv; lia).
    assert (H2 : 0 <= shr_m (SpecFloat.iter_pos shr_1 n (shr_1 r)))
      by (rewrite IH by lia; apply Hdiv; lia).
    rewrite IH, IH, shr_1_m by assumption.
    rewrite !Z.div_div by lia. f_equal.
    rewrite (Pos2Z.inj_xI n).
    replace (2 * Zpos n + 1) with (1 + Zpos n + Zpos n) by lia.
    rewrite !Z.pow_add_r by lia. change (2 ^ 1) with 2. ring.
  - assert (H2 : 0 <= shr_m (SpecFloat.iter_pos shr_1 n r))
      by (rewrite IH by lia; apply Hdiv; lia).
    rewrite IH, IH by assumption.
    rewrite !Z.div_div by lia. f_equal.
    rewrite (Pos2Z.inj_xO n).
    replace (2 * Zpos n) with (Zpos n + Zpos n) by lia.
    rewrite Z.pow_add_r by lia. reflexivity.
  - rewrite shr_1_m by assumption. reflexivity.
Qed.

Lemma shr_m_of_loc (m : Z) (l : location) : shr_m (shr_record_of_loc m l) = m.
Proof. destruct l as [| []]; reflexivity. Qed.

Lemma round_nearest_even_bounds (m : Z) (l : location) :
  m <= round_nearest_even m l <= m + 1.
Proof.
  unfold round_nearest_even. destruct l as [| []]; try lia.
  destruct (Z.even m); lia.
Qed.

(** A mantissa of exactly 24 bits needs no rounding. *)
Lemma binary_round_aux_exact (s : bool) (m : positive) (e : Z) :
  Zpos (digits2_pos m) = 24 -> -149 <= e <= 104 ->
  binary_round_aux 24 128 s (Zpos m) e loc_Exact = S754_finite s m e.
Proof.
  intros Hd He.
  assert (Hs : shr_fexp 24 128 (Zpos m) e loc_Exact
               = (shr_record_of_loc (Zpos m) loc_Exact, e)).
  { unfold shr_fexp. cbn [Zdigits2]. rewrite Hd.
    replace (fexp 24 128 (24 + e) - e) with 0 by (unfold fexp, emin; lia).
    reflexivity. }
  unfold binary_round_aux. rewrite Hs.
  cbn [shr_record_of_loc shr_m loc_of_shr_record round_nearest_even].
  rewrite Hs. cbn [shr_record_of_loc shr_m].
  destruct (Z.leb_spec e (128 - 24)); [reflexivity | lia].
Qed.

(** A mantissa of [24 + n] bits is shifted by [n] and rounded; the result
    has 24 bits again, the exponent growing by one more when the rounding
    carries into a 25th bit. *)
Lemma binary_round_aux_shifted (s : bool) (mx : positive) (ex : Z)
    (l : location) (n : positive) :
  Zpos (digits2_pos mx) = 24 + Zpos n ->
  -149 <= ex + Zpos n -> ex + Zpos n + 1 <= 104 ->
  exists m e,
    binary_round_aux 24 128 s (Zpos mx) ex l = S754_finite s m e
    /\ Zpos (digits2_pos m) = 24
    /\ (e = ex + Zpos n \/ (e = ex + Zpos n + 1 /\ m = 8388608%positive)).
Proof.
  intros Hd Hlo Hhi.
  pose proof (digits2_pos_bounds mx) as Hb. rewrite Hd in Hb.
  replace (24 + Zpos n - 1) with (23 + Zpos n) in Hb by lia.
  rewrite !Z.pow_add_r in Hb by lia.
  assert (Hp : 0 < 2 ^ Zpos n) by (apply Z.pow_pos_nonneg; lia).
  set (r1 := SpecFloat.iter_pos shr_1 n (shr_record_of_loc (Zpos mx) l)).
  assert (H1 : shr_fexp 24 128 (Zpos mx) ex l = (r1, ex + Zpos n)).
  { unfold shr_fexp. cbn [Zdigits2]. rewrite Hd.
    replace (fexp 24 128 (24 + Zpos n + ex) - ex) with (Zpos n)
      by (unfold fexp, emin; lia).
    reflexivity. }
  assert (Hm1 : shr_m r1 = Zpos mx / 2 ^ Zpos n).
  { unfold r1. rewrite iter_shr_1_m; rewrite shr_m_of_loc; [reflexivity | lia]. }
  assert (Hr1 : 2 ^ 23 <= shr_m r1 < 2 ^ 24).
  { rewrite Hm1. split.
    - apply Z.div_le_lower_bound; lia.
    - apply Z.div_lt_upper_bound; lia. }
  pose proof (round_nearest_even_bounds (shr_m r1) (loc_of_shr_record r1)) as Hr2.
  unfold binary_round_aux. rewrite H1.
  set (m2 := round_nearest_even (shr_m r1) (loc_of_shr_record r1)) in *.
  clearbody m2. clear H1 Hm1. clearbody r1.
  change (2 ^ 23) with 8388608 in Hr1. change (2 ^ 24) with 16777216 in Hr1.
  destruct m2 as [| p2 | p2]; try lia.
  destruct (Z.eq_dec (Zpos p2) 16777216) as [E | NE].
  - inversion E; subst p2.
    exists 8388608%positive, (ex + Zpos n + 1).
    split; [| split; [reflexivity | right; split; reflexivity]].
    unfold shr_fexp. cbn [Zdigits2].
    change (Zpos (digits2_pos 16777216)) with 25.
    replace (fexp 24 128 (25 + (ex + Zpos n)) - (ex + Zpos n)) with 1
      by (unfold fexp, emin; lia).
    cbn [shr shr_record_of_loc SpecFloat.iter_pos shr_1 shr_m orb].
    destruct (Z.leb_spec (ex + Zpos n + 1) (128 - 24)); [reflexivity | lia].
  - assert (Hd2 : Zpos (digits2_pos p2) = 24)
      by (apply digits2_pos_unique; change (2 ^ (24 - 1)) with 8388608;
          change (2 ^ 24) with 16777216; lia).
    exists p2, (ex + Zpos n).
    split; [| split; [exact Hd2 | left; reflexivity]].
    unfold shr_fexp. cbn [Zdigits2]. rewrite Hd2.
    replace (fexp 24 128 (24 + (ex + Zpos n)) - (ex + Zpos n)) with 0
      by (unfold fexp, emin; lia).
    cbn [shr shr_record_of_loc shr_m].
    destruct (Z.leb_spec (ex + Zpos n) (128 - 24)); [reflexivity | lia].
Qed.

Lemma digits2_pos_iter_xO (n m : positive) :
  Zpos (digits2_pos (Pos.iter xO m n)) = Zpos (digits2_pos m) + Zpos n.
Proof.
  induction n as [| n IH] using Pos.peano_ind.
  - cbn [Pos.iter digits2_pos]. lia.
  - rewrite Pos.iter_succ. cbn [digits2_pos]. lia.
Qed.

(** The float nearest to an integer of magnitude below [2^31]: a 24-bit
    mantissa and an exponent from -23 to 8, the exponent 8 only for [2^31]
    itself. *)
Lemma binary_round_int_shape (s : bool) (p : positive) :
  Zpos p < 2 ^ 31 ->
  exists m e,
    binary_round 24 128 s p 0 = S754_finite s m e
    /\ Zpos (digits2_pos m) = 24
    /\ -23 <= e <= 8
    /\ (e = 8 -> m = 8388608%positive).
Proof.
  intros Hp.
  pose proof (digits2_pos_bounds p) as Hb.
  assert (Hd : 0 < Zpos (digits2_pos p) <= 31).
  { split; [lia |].
    destruct (Z_lt_le_dec 31 (Zpos (digits2_pos p))) as [H |]; [exfalso | lia].
    assert (2 ^ 31 <= 2 ^ (Zpos (digits2_pos p) - 1))
      by (apply Z.pow_le_mono_r; lia).
    lia. }
  unfold binary_round, shl_align.
  replace (fexp 24 128 (Zpos (digits2_pos p) + 0) - 0)
    with (Zpos (digits2_pos p) - 24) by (unfold fexp, emin; lia).
  replace (fexp 24 128 (Zpos (digits2_pos p) + 0))
    with (Zpos (digits2_pos p) - 24) by (unfold fexp, emin; lia).
  destruct (Zpos (digits2_pos p) - 24) as [| n | k] eqn:E.
  - rewrite binary_round_aux_exact by lia.
    exists p, 0. repeat split; try lia.
  - destruct (binary_round_aux_shifted s p 0 loc_Exact n) as (m & e & Hr & Hm & He);
      try lia.
    exists m, e. split; [exact Hr |]. split; [exact Hm |].
    split; [lia |]. intros E8. destruct He as [He | [_ Hm8]]; [lia | exact Hm8].
  - rewrite binary_round_aux_exact.
    + eexists _, _. split; [reflexivity |].
      split; [rewrite digits2_pos_iter_xO; lia |]. split; lia.
    + rewrite digits2_pos_iter_xO. lia.
    + lia.
Qed.

(** Division by the float [2^31] keeps the 24-bit mantissa and lowers the
    exponent by 31. *)
Lemma SFdiv_by_two_to_31 (s : bool) (m : positive) (e : Z) :
  Zpos (digits2_pos m) = 24 -> -23 <= e <= 8 ->
  exists m' e',
    SFdiv 24 128 (S754_finite s m e) (S754_finite false 8388608 8)
    = S754_finite s m' e'
    /\ Zpos (digits2_pos m') = 24
    /\ (e' = e - 31 \/ (e' = e - 30 /\ m' = 8388608%positive)).
Proof.
  intros Hd He.
  assert (Hc : SFdiv_core_binary 24 128 (Zpos m) e 8388608 8
               = (Zpos m~0, e - 32, loc_Exact)).
  { unfold SFdiv_core_binary. cbn [Zdigits2]. rewrite Hd.
    change (Zpos (digits2_pos 8388608)) with 24.
    replace (Z.min (fexp 24 128 (24 + e - (24 + 8))) (e - 8)) with (e - 32)
      by (unfold fexp, emin; lia).
    replace (e - 8 - (e - 32)) with 24 by lia.
    rewrite Z.shiftl_mul_pow2 by lia.
    assert (Hq : Z.div_eucl (Zpos m * 2 ^ 24) 8388608 = (Zpos m~0, 0)).
    { pose proof (Z.div_eucl_eq (Zpos m * 2 ^ 24) 8388608 ltac:(lia)) as Heq.
      pose proof (Z.mod_pos_bound (Zpos m * 2 ^ 24) 8388608 ltac:(lia)) as Hmod.
      unfold Z.modulo in Hmod.
      destruct (Z.div_eucl (Zpos m * 2 ^ 24) 8388608) as [q r].
      change (2 ^ 24) with 16777216 in Heq.
      assert (q = Zpos m~0 /\ r = 0) as [-> ->] by lia. reflexivity. }
    rewrite Hq. reflexivity. }
  unfold SFdiv. rewrite Hc.
  replace (xorb s false) with s by (destruct s; reflexivity).
  destruct (binary_round_aux_shifted s m~0 (e - 32) loc_Exact 1)
    as (m' & e' & Hr & Hm & He'); try lia.
  { cbn [digits2_pos]. lia. }
  exists m', e'. split; [exact Hr |]. split; [exact Hm |].
  destruct He' as [-> | [-> ->]]; [left; lia | right; split; [lia | reflexivity]].
Qed.

Lemma int32_max_as_float :
  f32.of_Z (numeric_limits.max int32_t) = S754_finite false 8388608 8.
Proof. reflexivity. Qed.

(** The ratio of a nonzero [int32_t] alpha to the largest value: it has the
    sign of alpha and a magnitude of at most 1. *)
Lemma alpha_ratio_int32_shape (a : Z) :
  representable int32_t a -> a <> 0 ->
  exists m e,
    alpha_ratio int32_t a = S754_finite (a <? 0) m e
    /\ (e < -23 \/ (e = -23 /\ m = 8388608%positive)).
Proof.
  intros Ha Hz. unfold representable in Ha. cbn in Ha.
  unfold alpha_ratio. rewrite int32_max_as_float.
  destruct (Z.eq_dec a (-2147483648)) as [-> | Hlow].
  { exists 8388608%positive, (-23). split; [vm_compute; reflexivity | right; split; reflexivity]. }
  unfold f32.of_Z, SFof_Z, binary_normalize.
  destruct a as [| p | p]; [congruence | |].
  - destruct (binary_round_int_shape false p) as (m & e & Hr & Hm & He & H8);
      [change (2 ^ 31) with 2147483648; lia |].
    rewrite Hr. unfold f32.div.
    destruct (Z.eq_dec e 8) as [E8 | N8].
    + rewrite E8, (H8 E8).
      exists 8388608%positive, (-23).
      split; [vm_compute; reflexivity | right; split; reflexivity].
    + destruct (SFdiv_by_two_to_31 false m e Hm He) as (m' & e' & Hq & _ & He').
      rewrite Hq. exists m', e'. split; [reflexivity |].
      destruct He' as [-> | [-> ->]]; [left; lia |].
      destruct (Z.eq_dec e 7) as [-> | N7]; [right; split; reflexivity | left; lia].
  - destruct (binary_round_int_shape true p) as (m & e & Hr & Hm & He & H8);
      [change (2 ^ 31) with 2147483648; lia |].
    rewrite Hr. unfold f32.div.
    destruct (Z.eq_dec e 8) as [E8 | N8].
    + rewrite E8, (H8 E8).
      exists 8388608%positive, (-23).
      split; [vm_compute; reflexivity | right; split; reflexivity].
    + destruct (SFdiv_by_two_to_31 true m e Hm He) as (m' & e' & Hq & _ & He').
      rewrite Hq. exists m', e'. split; [reflexivity |].
      destruct He' as [-> | [-> ->]]; [left; lia |].
      destruct (Z.eq_dec e 7) as [-> | N7]; [right; split; reflexivity | left; lia].
Qed.

(** The ratio of alpha to the largest value lies between 0 and 1 whenever
    alpha is not negative. *)
Lemma alpha_ratio_nonnegative (T : integral) (a : Z) :
  representable T a -> 0 <= a -> in_unit_range (alpha_ratio T a) = true.
Proof.
  intros Ha Hn. destruct T.
  - apply alpha_ratio_unsigned; [reflexivity | exact Ha].
  - unfold representable in Ha. cbn in Ha.
    assert (H : range_all (fun a => in_unit_range (alpha_ratio signed_char a)) 0 128 = true)
      by (vm_compute; reflexivity).
    apply (range_all_spec _ _ _ H). lia.
  - apply alpha_ratio_unsigned; [reflexivity | exact Ha].
  - destruct (Z.eq_dec a 0) as [-> | Hz]; [vm_compute; reflexivity |].
    destruct (alpha_ratio_int32_shape a Ha Hz) as (m & e & Hr & He).
    rewrite Hr. destruct (Z.ltb_spec a 0); [lia |].
    unfold in_unit_range, f32.leb, f32.zero, SFleb.
    change f32.one with (S754_finite false 8388608 (-23)).
    cbn [SFcompare andb].
    destruct He as [He | [-> ->]]; [| reflexivity].
    rewrite (proj2 (Z.compare_lt_iff e (-23)) He). reflexivity.
Qed.

(** A negative alpha, which only the signed element types have, gives a
    ratio below 0. *)
Lemma alpha_ratio_negative (T : integral) (a : Z) :
  representable T a -> a < 0 -> SFltb (alpha_ratio T a) f32.zero = true.
Proof.
  intros Ha Hn. destruct T.
  - unfold representable in Ha. cbn in Ha. lia.
  - unfold representable in Ha. cbn in Ha.
    assert (H : range_all (fun a => SFltb (alpha_ratio signed_char a) f32.zero)
                  (-128) 128 = true) by (vm_compute; reflexivity).
    apply (range_all_spec _ _ _ H). lia.
  - unfold representable in Ha. cbn in Ha. lia.
  - destruct (alpha_ratio_int32_shape a Ha ltac:(lia)) as (m & e & Hr & _).
    rewrite Hr. destruct (Z.ltb_spec a 0); [reflexivity | lia].
Qed.

Lemma below_zero_not_in_unit_range (x : spec_float) :
  SFltb x f32.zero = true -> in_unit_range x = false.
Proof.
  unfold in_unit_range, f32.leb, f32.zero.
  destruct x as [sx | [] | | [] m e]; cbn; intros H;
    try discriminate H; reflexivity.
Qed.

(* ================================================================== *)
(** * The premultiply routine for integral types *)

(** C2, as stated, fails twice. The routine is instantiated for
    [signed char] (for [HioFormatSNorm8Vec4]), where the alpha value -1 gives
    a ratio below 0. And it is instantiated for [int32_t], where on the fully
    opaque texel (2147483647, 0, 0, 2147483647) the ratio is 1 but the
    product plus one half is [2^31], which the conversion to [int32_t]
    cannot represent: nothing is stored, the run is undefined. *)
Lemma alpha_ratio_signed_char_negative :
  representable signed_char (-1)
  /\ in_unit_range (alpha_ratio signed_char (-1)) = false
  /\ SFltb (alpha_ratio signed_char (-1)) f32.zero = true
  /\ representable int32_t 2147483647
  /\ alpha_ratio int32_t 2147483647 = f32.one
  /\ (forall pow,
        exec (_PremultiplyAlpha pow int32_t false 0 1 0)
          [2147483647; 0; 0; 2147483647] = None).
Proof.
  split; [unfold representable; cbn; lia |].
  split; [vm_compute; reflexivity |].
  split; [vm_compute; reflexivity |].
  split; [unfold representable; cbn; lia |].
  split; [vm_compute; reflexivity |].
  intros pow. vm_compute. reflexivity.
Qed.

(** C2, amended: between buffers that coincide or do not overlap,
    [_PremultiplyAlpha] without sRGB handling either is undefined, some
    channel having no representable rounded product, or stores for every
    texel the color channels as floats times alpha over the largest value of
    the type, plus one half, truncated, and the alpha itself, touching
    nothing else. On [unsigned char] data it is always defined and stores the
    integer nearest to [c * a / 255]. The texel (255, 128, 0, 128) becomes
    (128, 64, 0, 128). For every element type the ratio lies in [0, 1] when
    alpha is not negative, as it always is for the unsigned types, and is
    below 0, so outside [0, 1], when alpha is negative. *)
Theorem PremultiplyAlpha_linear_scales_and_rounds :
  (forall pow (T : integral) (src dst n : nat) (h : list Z),
      same_or_apart src dst n ->
      (src + 4 * n <= length h)%nat -> (dst + 4 * n <= length h)%nat ->
      match exec (_PremultiplyAlpha pow T false src n dst) h with
      | Some h' =>
          length h' = length h
          /\ (forall i, (i < n)%nat ->
                texel_premultiplied (scaled_and_rounded T) src dst h h' i)
          /\ (forall q, (q < dst \/ dst + 4 * n <= q)%nat -> h' !! q = h !! q)
      | None =>
          exists i, (i < n)%nat /\ texel_undefined (scaled_and_rounded T) src h i
      end)
  /\ (forall pow (src dst n : nat) (h : list Z),
        same_or_apart src dst n ->
        (src + 4 * n <= length h)%nat -> (dst + 4 * n <= length h)%nat ->
        (forall q z, (src <= q < src + 4 * n)%nat -> h !! q = Some z ->
                     representable unsigned_char z) ->
        exists h',
          exec (_PremultiplyAlpha pow unsigned_char false src n dst) h = Some h'
          /\ forall i j, (i < n)%nat -> (j < 3)%nat ->
               exists c a,
                 h !! (src + (4 * i + j))%nat = Some c
                 /\ h !! (src + (4 * i + 3))%nat = Some a
                 /\ h' !! (dst + (4 * i + 3))%nat = Some a
                 /\ h' !! (dst + (4 * i + j))%nat = Some ((2 * c * a + 255) / 510))
  /\ (forall (T : integral) (a : Z),
        numeric_limits.is_signed T = false -> representable T a ->
        in_unit_range (alpha_ratio T a) = true)
  /\ (forall pow,
        exec (_PremultiplyAlpha pow unsigned_char false 0 1 0) [255; 128; 0; 128]
        = Some [128; 64; 0; 128])
  /\ (forall (T : integral) (a : Z),
        representable T a -> 0 <= a ->
        in_unit_range (alpha_ratio T a) = true)
  /\ (forall (T : integral) (a : Z),
        representable T a -> a < 0 ->
        SFltb (alpha_ratio T a) f32.zero = true
        /\ in_unit_range (alpha_ratio T a) = false).
Proof.
  assert (Hgen : forall pow (T : integral) (src dst n : nat) (h : list Z),
      same_or_apart src dst n ->
      (src + 4 * n <= length h)%nat -> (dst + 4 * n <= length h)%nat ->
      match exec (_PremultiplyAlpha pow T false src n dst) h with
      | Some h' =>
          length h' = length h
          /\ (forall i, (i < n)%nat ->
                texel_premultiplied (scaled_and_rounded T) src dst h h' i)
          /\ (forall q, (q < dst \/ dst + 4 * n <= q)%nat -> h' !! q = h !! q)
      | None =>
          exists i, (i < n)%nat /\ texel_undefined (scaled_and_rounded T) src h i
      end).
  { intros pow T src dst n h Hal Hs Hd.
    rewrite PremultiplyAlpha_unfold.
    exact (premultiply_texels_run (scaled_and_rounded T) src dst n h Hal Hs Hd). }
  split; [exact Hgen |]. split; [| split; [exact alpha_ratio_unsigned |]].
  - intros pow src dst n h Hal Hs Hd Hrep.
    specialize (Hgen pow unsigned_char src dst n h Hal Hs Hd).
    destruct (exec _ h) as [h'|].
    + destruct Hgen as (_ & Ht & _). exists h'. split; [reflexivity |].
      intros i j Hi Hj. destruct (Ht i Hi) as (a & Ha & Ha' & Hc).
      destruct (Hc j Hj) as (c & v & Hc1 & Hv & Hc2).
      exists c, a. repeat split; try assumption.
      rewrite scaled_and_rounded_unsigned_char in Hv.
      * congruence.
      * apply (Hrep (src + (4 * i + j))%nat); [lia | exact Hc1].
      * apply (Hrep (src + (4 * i + 3))%nat); [lia | exact Ha].
    + exfalso. destruct Hgen as (i & Hi & j & c & a & Hj & Hc & Ha & Hv).
      rewrite scaled_and_rounded_unsigned_char in Hv.
      * discriminate.
      * apply (Hrep (src + (4 * i + j))%nat); [lia | exact Hc].
      * apply (Hrep (src + (4 * i + 3))%nat); [lia | exact Ha].
  - split; [intros pow; vm_compute; reflexivity |].
    split; [exact alpha_ratio_nonnegative |].
    intros T a Ha Hn. pose proof (alpha_ratio_negative T a Ha Hn) as H.
    split; [exact H | exact (below_zero_not_in_unit_range _ H)].
Qed.

Lemma PremultiplyAlpha_linear_scales_and_rounds_witness :
  exists h',
    exec (_PremultiplyAlpha (fun x _ => x) signed_char false 0 1 0)
      [100; -100; 127; 64] = Some h'
    /\ length h' = 4%nat
    /\ texel_premultiplied (scaled_and_rounded signed_char) 0 0
         [100; -100; 127; 64] h' 0.
Proof.
  pose proof (proj1 PremultiplyAlpha_linear_scales_and_rounds (fun x _ => x)
                signed_char 0%nat 0%nat 1%nat [100; -100; 127; 64]
                (or_introl eq_refl) ltac:(cbn; lia) ltac:(cbn; lia)) as H.
  destruct (exec _ _) as [h'|] eqn:E.
  - exists h'. destruct H as (Hl & Ht & _).
    split; [reflexivity |]. split; [exact Hl | apply Ht; lia].
  - exfalso. vm_compute in E. discriminate.
Defined.

(* ================================================================== *)
(** * Doubles close to an exact power *)








(* ================================================================== *)
(** * The sRGB round trip of an opaque texel *)




Lemma spec_float_eqb_eq (x y : spec_float) : spec_float_eqb x y = true -> x = y.
Proof.
  destruct x as [s | s | | s m e], y as [s' | s' | | s' m' e']; cbn; try discriminate.
  - intros H. apply Bool.eqb_prop in H. congruence.
  - intros H. apply Bool.eqb_prop in H. congruence.
  - reflexivity.
  - intros H. apply andb_prop in H as [H He]. apply andb_prop in H as [Hs Hm].
    apply Bool.eqb_prop in Hs. apply Pos.eqb_eq in Hm. apply Z.eqb_eq in He.
    congruence.
Qed.






(* ================================================================== *)
(** * Further properties of the format selector *)

(** X1: each of the seven uncompressed 4-channel formats yields its own
    target; with [premultiplyAlpha] the premultiply routine of its element
    type is stored (the sRGB-aware one for the sRGB format only), without it
    the state is left as it was; [avoidThreeComponentFormats] plays no
    part. *)
Theorem four_channel_premultiply_iff_flag :
  Forall
    (fun '(h, g, f) =>
       forall (premultiplyAlpha avoidThreeComponentFormats : bool) (s : Env),
         HdStTextureUtils.GetHgiFormat h premultiplyAlpha
             avoidThreeComponentFormats s
         = (g, if premultiplyAlpha then mkEnv f (issued s) else s))
    [ (HioFormatUNorm8Vec4, HgiFormatUNorm8Vec4, Fn_PremultiplyAlpha unsigned_char false);
      (HioFormatSNorm8Vec4, HgiFormatSNorm8Vec4, Fn_PremultiplyAlpha signed_char false);
      (HioFormatFloat16Vec4, HgiFormatFloat16Vec4, Fn_PremultiplyAlphaFloat GfHalf);
      (HioFormatFloat32Vec4, HgiFormatFloat32Vec4, Fn_PremultiplyAlphaFloat float);
      (HioFormatUInt16Vec4, HgiFormatUInt16Vec4, Fn_PremultiplyAlpha uint16_t false);
      (HioFormatInt32Vec4, HgiFormatInt32Vec4, Fn_PremultiplyAlpha int32_t false);
      (HioFormatUNorm8Vec4srgb, HgiFormatUNorm8Vec4srgb,
       Fn_PremultiplyAlpha unsigned_char true) ].
Proof.
  repeat (apply List.Forall_cons; [intros [] a s; reflexivity |]).
  apply List.Forall_nil.
Qed.

(** X2: the twelve supported one- and two-channel formats yield the target
    of the same name and leave the state as it was, whatever the flags. *)
Theorem one_two_channel_pass_through :
  Forall
    (fun '(h, g) =>
       forall (premultiplyAlpha avoidThreeComponentFormats : bool) (s : Env),
         HdStTextureUtils.GetHgiFormat h premultiplyAlpha
             avoidThreeComponentFormats s = (g, s))
    [ (HioFormatUNorm8, HgiFormatUNorm8); (HioFormatUNorm8Vec2, HgiFormatUNorm8Vec2);
      (HioFormatSNorm8, HgiFormatSNorm8); (HioFormatSNorm8Vec2, HgiFormatSNorm8Vec2);
      (HioFormatFloat16, HgiFormatFloat16); (HioFormatFloat16Vec2, HgiFormatFloat16Vec2);
      (HioFormatFloat32, HgiFormatFloat32); (HioFormatFloat32Vec2, HgiFormatFloat32Vec2);
      (HioFormatUInt16, HgiFormatUInt16); (HioFormatUInt16Vec2, HgiFormatUInt16Vec2);
      (HioFormatInt32, HgiFormatInt32); (HioFormatInt32Vec2, HgiFormatInt32Vec2) ].
Proof.
  repeat (apply List.Forall_cons; [intros p a s; reflexivity |]).
  apply List.Forall_nil.
Qed.

(** X3: whatever the selector stores goes with a matching 4-channel result:
    an expansion is stored only for a 3-channel source and comes with the
    4-channel target of the same element type; a premultiply routine is
    stored only for a 4-channel source and comes with that format's target.
    In particular no routine comes with [HgiFormatInvalid], and no
    expansion is selected for a 4-channel source. *)
Theorem selected_routine_matches_result :
  forall (h : HioFormat) (premultiplyAlpha avoidThreeComponentFormats : bool),
    let '(g, f, _) := Select h premultiplyAlpha avoidThreeComponentFormats in
    match f with
    | nullptr => True
    | Fn_ConvertRGBToRGBA T =>
        In (h, g, T)
          [ (HioFormatUNorm8Vec3, HgiFormatUNorm8Vec4, Integral unsigned_char);
            (HioFormatSNorm8Vec3, HgiFormatSNorm8Vec4, Integral signed_char);
            (HioFormatFloat16Vec3, HgiFormatFloat16Vec4, Floating GfHalf);
            (HioFormatFloat32Vec3, HgiFormatFloat32Vec4, Floating float);
            (HioFormatUInt16Vec3, HgiFormatUInt16Vec4, Integral uint16_t);
            (HioFormatInt32Vec3, HgiFormatInt32Vec4, Integral int32_t);
            (HioFormatUNorm8Vec3srgb, HgiFormatUNorm8Vec4srgb, Integral unsigned_char) ]
    | Fn_PremultiplyAlpha T isSRGB =>
        premultiplyAlpha = true
        /\ In (h, g, T, isSRGB)
             [ (HioFormatUNorm8Vec4, HgiFormatUNorm8Vec4, unsigned_char, false);
               (HioFormatSNorm8Vec4, HgiFormatSNorm8Vec4, signed_char, false);
               (HioFormatUInt16Vec4, HgiFormatUInt16Vec4, uint16_t, false);
               (HioFormatInt32Vec4, HgiFormatInt32Vec4, int32_t, false);
               (HioFormatUNorm8Vec4srgb, HgiFormatUNorm8Vec4srgb, unsigned_char, true) ]
    | Fn_PremultiplyAlphaFloat T =>
        premultiplyAlpha = true
        /\ In (h, g, T)
             [ (HioFormatFloat16Vec4, HgiFormatFloat16Vec4, GfHalf);
               (HioFormatFloat32Vec4, HgiFormatFloat32Vec4, float) ]
    end.
Proof.
  intros h p a. destruct h, p, a; cbn; auto 10.
Qed.

(** X4: a call issues at most one diagnostic, after those already issued,
    and returns [HgiFormatInvalid] exactly when it issues one or the input is
    [HioFormatInvalid]: a usable format never comes with a diagnostic. *)
Theorem invalid_result_iff_diagnostic :
  forall (h : HioFormat) (premultiplyAlpha avoidThreeComponentFormats : bool) (s : Env),
    let '(g, s') := HdStTextureUtils.GetHgiFormat h premultiplyAlpha
                      avoidThreeComponentFormats s in
    (issued s' = issued s \/ exists d, issued s' = issued s ++ [d])
    /\ (g = HgiFormatInvalid <-> issued s' <> issued s \/ h = HioFormatInvalid).
Proof.
  intros h p a s.
  assert (Hne : forall d, issued s ++ [d] <> issued s).
  { intros d H. apply (f_equal (@length _)) in H.
    rewrite length_app in H. cbn in H. lia. }
  destruct h, p, a; cbn;
    (split;
     [ first [ left; reflexivity | right; eexists; reflexivity ]
     | split;
       [ intros H; first [ discriminate H | right; reflexivity | left; apply Hne ]
       | intros [H | H]; first [ reflexivity | discriminate H | exfalso; apply H; reflexivity ] ] ]).
Qed.

(** X5: the returned format and the diagnostics do not depend on
    [premultiplyAlpha] nor on the routine stored before the call, and
    [avoidThreeComponentFormats] changes the outcome of a call for the four
    3-channel half, float, uint16 and int32 formats only. *)
Theorem flags_influence :
  forall (h : HioFormat) (p p' a a' : bool) (s : Env),
    (forall f0,
        fst (HdStTextureUtils.GetHgiFormat h p a s)
        = fst (HdStTextureUtils.GetHgiFormat h p' a (mkEnv f0 (issued s)))
        /\ issued (snd (HdStTextureUtils.GetHgiFormat h p a s))
           = issued (snd (HdStTextureUtils.GetHgiFormat h p' a (mkEnv f0 (issued s)))))
    /\ (HdStTextureUtils.GetHgiFormat h p a s = HdStTextureUtils.GetHgiFormat h p a' s
        \/ In h [HioFormatFloat16Vec3; HioFormatFloat32Vec3;
                 HioFormatUInt16Vec3; HioFormatInt32Vec3]).
Proof.
  intros h p p' a a' s. split.
  - intros f0. destruct h, p, p', a; split; reflexivity.
  - destruct h; try (left; destruct p; reflexivity); right; cbn; auto.
Qed.

(* ================================================================== *)
(** * Capacity the routines need *)

Section Inversion.
Context {T : Type}.
Implicit Types (h : list T) (p : nat) (v : T).
Local Open Scope nat_scope.

Lemma load_Some_inv h p x h' :
  load p h = Some (x, h') -> h' = h /\ h !! p = Some x /\ p < length h.
Proof.
  unfold load. destruct (h !! p) as [y|] eqn:E; [| discriminate].
  intros H. inversion H; subst. repeat split.
  apply lookup_lt_Some in E. exact E.
Qed.

Lemma store_Some_inv h p v u h' :
  store p v h = Some (u, h') -> h' = <[p:=v]> h /\ p < length h.
Proof.
  unfold store. destruct (decide (p < length h)); [| discriminate].
  intros H. inversion H; subst. split; [reflexivity | assumption].
Qed.

Lemma bind_Some_inv {A B} (m : Prog T A) (k : A -> Prog T B) h r :
  (m ≫= k) h = Some r -> exists a h1, m h = Some (a, h1) /\ k a h1 = Some r.
Proof.
  rewrite run_bind. destruct (m h) as [[a h1]|]; [| discriminate].
  intros H. exists a, h1. split; [reflexivity | exact H].
Qed.
End Inversion.

(** Steps through a run known to be defined, collecting the bounds of its
    accesses. *)
Ltac invert_run H :=
  repeat match type of H with
    | (_ ≫= _) _ = Some _ =>
        let a := fresh "a" in let h1 := fresh "h" in
        let H1 := fresh "Hrun" in
        apply bind_Some_inv in H as (a & h1 & H1 & H);
        first
          [ apply load_Some_inv in H1 as (-> & ? & ?)
          | apply store_Some_inv in H1 as (-> & ?)
          | idtac ]
    end.

(** One iteration of [_ConvertRGBToRGBA] is defined only within bounds. *)
Lemma expand_texel_bounds (T : ctype) (h : list (val T)) (s d : nat) r :
  (x ← load s; store d x ;;
   x ← load (s + 1)%nat; store (d + 1)%nat x ;;
   x ← load (s + 2)%nat; store (d + 2)%nat x ;;
   store (d + 3)%nat (_OpaqueAlpha T)) h = Some r ->
  (s + 2 < length h)%nat /\ (d + 3 < length h)%nat.
Proof.
  intros H. invert_run H.
  destruct r as [u h']. apply store_Some_inv in H as (_ & H).
  rewrite !length_insert in *. lia.
Qed.

(** X8: whatever the overlap of the two buffers, [_ConvertRGBToRGBA] is
    defined exactly when it has no texel to convert or both the [3 * n]
    source cells and the [4 * n] destination cells lie within the heap; it
    never changes the size of the heap. *)
Theorem ConvertRGBToRGBA_defined_iff_in_bounds :
  forall (T : ctype) (src dst n : nat) (h : list (val T)),
    (is_Some (exec (_ConvertRGBToRGBA T src n dst) h)
     <-> n = 0%nat
         \/ ((src + 3 * n <= length h)%nat /\ (dst + 4 * n <= length h)%nat))
    /\ (forall h', exec (_ConvertRGBToRGBA T src n dst) h = Some h' ->
                   length h' = length h).
Proof.
  intros T src dst.
  assert (Hdef : forall n h,
             (src + 3 * n <= length h)%nat -> (dst + 4 * n <= length h)%nat ->
             exists h', _ConvertRGBToRGBA T src n dst h = Some (tt, h')
                        /\ length h' = length h).
  { unfold _ConvertRGBToRGBA.
    induction n as [|m IH]; intros h Hs Hd.
    - exists h. split; reflexivity.
    - rewrite while_decr_succ, run_bind.
      destruct (expand_texel_run T h (src + 3 * m) (dst + 4 * m) ltac:(lia) ltac:(lia))
        as (x0 & x1 & x2 & _ & _ & _ & Hrun).
      replace (src + (3 * m + 0))%nat with (src + 3 * m)%nat by lia.
      replace (src + (3 * m + 1))%nat with (src + 3 * m + 1)%nat by lia.
      replace (src + (3 * m + 2))%nat with (src + 3 * m + 2)%nat by lia.
      replace (dst + (4 * m + 0))%nat with (dst + 4 * m)%nat by lia.
      replace (dst + (4 * m + 1))%nat with (dst + 4 * m + 1)%nat by lia.
      replace (dst + (4 * m + 2))%nat with (dst + 4 * m + 2)%nat by lia.
      replace (dst + (4 * m + 3))%nat with (dst + 4 * m + 3)%nat by lia.
      rewrite Hrun.
      destruct (IH (<[(dst + 4 * m + 3)%nat:=_OpaqueAlpha T]>
                      (<[(dst + 4 * m + 2)%nat:=x2]>
                         (<[(dst + 4 * m + 1)%nat:=x1]> (<[(dst + 4 * m)%nat:=x0]> h)))))
        as (h' & Hex & Hl); try (rewrite !length_insert; lia).
      exists h'. split; [exact Hex |]. rewrite Hl, !length_insert. reflexivity. }
  intros n h. split; [split |].
  - intros [h' Hex]. unfold exec in Hex.
    destruct n as [|m]; [left; reflexivity | right].
    destruct (_ConvertRGBToRGBA T src (S m) dst h) as [[[] h1]|] eqn:E;
      [| discriminate].
    unfold _ConvertRGBToRGBA in E. rewrite while_decr_succ in E.
    apply bind_Some_inv in E as ([] & h2 & Hbody & _).
    replace (src + (3 * m + 0))%nat with (src + 3 * m)%nat in Hbody by lia.
    replace (src + (3 * m + 1))%nat with (src + 3 * m + 1)%nat in Hbody by lia.
    replace (src + (3 * m + 2))%nat with (src + 3 * m + 2)%nat in Hbody by lia.
    replace (dst + (4 * m + 0))%nat with (dst + 4 * m)%nat in Hbody by lia.
    replace (dst + (4 * m + 1))%nat with (dst + 4 * m + 1)%nat in Hbody by lia.
    replace (dst + (4 * m + 2))%nat with (dst + 4 * m + 2)%nat in Hbody by lia.
    replace (dst + (4 * m + 3))%nat with (dst + 4 * m + 3)%nat in Hbody by lia.
    apply expand_texel_bounds in Hbody. lia.
  - intros [-> | [Hs Hd]].
    + exists h. reflexivity.
    + destruct (Hdef n h Hs Hd) as (h' & Hex & _).
      exists h'. unfold exec. rewrite Hex. reflexivity.
  - intros h' Hex. unfold exec in Hex.
    destruct (_ConvertRGBToRGBA T src n dst h) as [[[] h1]|] eqn:E; [| discriminate].
    cbn in Hex. inversion Hex; subst h1.
    destruct n as [|m].
    + cbn in E. inversion E. reflexivity.
    + assert (Hb : (src + 3 * S m <= length h)%nat /\ (dst + 4 * S m <= length h)%nat).
      { pose proof E as E'.
        unfold _ConvertRGBToRGBA in E'. rewrite while_decr_succ in E'.
        apply bind_Some_inv in E' as ([] & h2 & Hbody & _).
        replace (src + (3 * m + 0))%nat with (src + 3 * m)%nat in Hbody by lia.
        replace (src + (3 * m + 1))%nat with (src + 3 * m + 1)%nat in Hbody by lia.
        replace (src + (3 * m + 2))%nat with (src + 3 * m + 2)%nat in Hbody by lia.
        replace (dst + (4 * m + 0))%nat with (dst + 4 * m)%nat in Hbody by lia.
        replace (dst + (4 * m + 1))%nat with (dst + 4 * m + 1)%nat in Hbody by lia.
        replace (dst + (4 * m + 2))%nat with (dst + 4 * m + 2)%nat in Hbody by lia.
        replace (dst + (4 * m + 3))%nat with (dst + 4 * m + 3)%nat in Hbody by lia.
        apply expand_texel_bounds in Hbody. lia. }
      destruct (Hdef (S m) h (proj1 Hb) (proj2 Hb)) as (h'' & Hex' & Hl).
      congruence.
Qed.

Section TexelLoopBounds.
Context {T : Type}.
Variable f : T -> T -> option T.
Variables src dst : nat.
Local Open Scope nat_scope.

Let body (i : nat) : Prog T unit :=
  a ← load (src + (4 * i + 3));
  for_ 0 3 (fun j =>
    c ← load (src + (4 * i + j));
    v ← defined (f c a);
    store (dst + (4 * i + j)) v) ;;
  a' ← load (src + (4 * i + 3));
  store (dst + (4 * i + 3)) a'.

Lemma defined_Some_inv {A} (o : option A) (h : list T) a h' :
  defined o h = Some (a, h') -> h' = h /\ o = Some a.
Proof.
  unfold defined. destruct o; [| discriminate].
  intros H. inversion H; subst. split; reflexivity.
Qed.

(** A defined iteration stays within bounds and keeps the size of the heap. *)
Lemma premultiply_texel_bounds (h : list T) (i : nat) u h' :
  body i h = Some (u, h') ->
  src + (4 * i + 3) < length h /\ dst + (4 * i + 3) < length h
  /\ length h' = length h.
Proof.
  unfold body. intros H.
  apply bind_Some_inv in H as (a & h0 & Hl & H).
  apply load_Some_inv in Hl as (-> & Ha & Hlt).
  rewrite !for_succ in H. cbn [for_] in H.
  repeat match type of H with
    | (_ ≫= _) _ = Some _ =>
        let a := fresh "a" in let h1 := fresh "h" in
        let H1 := fresh "Hrun" in
        apply bind_Some_inv in H as (a & h1 & H1 & H);
        first
          [ apply load_Some_inv in H1 as (-> & ? & ?)
          | apply store_Some_inv in H1 as (-> & ?)
          | apply defined_Some_inv in H1 as (-> & ?)
          | idtac ]
    end.
  repeat match goal with
    | Hr : (_ ≫= _) _ = Some _ |- _ =>
        let a := fresh "a" in let h1 := fresh "h" in
        let H1 := fresh "Hrun" in
        apply bind_Some_inv in Hr as (a & h1 & H1 & Hr);
        first
          [ apply load_Some_inv in H1 as (-> & ? & ?)
          | apply store_Some_inv in H1 as (-> & ?)
          | apply defined_Some_inv in H1 as (-> & ?)
          | idtac ]
    | Hr : store _ _ _ = Some _ |- _ => apply store_Some_inv in Hr as (-> & ?)
    | Hr : mret _ _ = Some _ |- _ => rewrite run_ret in Hr; inversion Hr; subst; clear Hr
    end.
  rewrite !length_insert in *. repeat split; lia.
Qed.

(** Within bounds an iteration is defined as soon as [f] is. *)
Lemma premultiply_texel_defined (h : list T) (i : nat) :
  (forall c a, is_Some (f c a)) ->
  src + (4 * i + 3) < length h -> dst + (4 * i + 3) < length h ->
  exists h', body i h = Some (tt, h') /\ length h' = length h.
Proof.
  intros Hf Hs Hd. unfold body.
  destruct (lookup_lt_is_Some_2 h (src + (4 * i + 3)) ltac:(lia)) as [a Ha].
  rewrite run_bind, (run_load _ _ _ Ha).
  rewrite !for_succ. cbn [for_].
  destruct (lookup_lt_is_Some_2 h (src + (4 * i + 0)) ltac:(lia)) as [c0 H0].
  rewrite run_bind, run_bind, run_bind, (run_load _ _ _ H0), run_bind, run_defined.
  destruct (Hf c0 a) as [v0 ->].
  rewrite run_store by lia.
  set (h1 := <[_:=_]> h).
  assert (Hl1 : length h1 = length h) by (unfold h1; apply length_insert).
  destruct (lookup_lt_is_Some_2 h1 (src + (4 * i + 1)) ltac:(lia)) as [c1 H1].
  rewrite run_bind, run_bind, (run_load _ _ _ H1), run_bind, run_defined.
  destruct (Hf c1 a) as [v1 ->].
  rewrite run_store by lia.
  set (h2 := <[_:=_]> h1).
  assert (Hl2 : length h2 = length h) by (unfold h2; rewrite length_insert; exact Hl1).
  destruct (lookup_lt_is_Some_2 h2 (src + (4 * i + 2)) ltac:(lia)) as [c2 H2].
  rewrite run_bind, run_bind, (run_load _ _ _ H2), run_bind, run_defined.
  destruct (Hf c2 a) as [v2 ->].
  rewrite run_store by lia.
  set (h3 := <[_:=_]> h2).
  assert (Hl3 : length h3 = length h) by (unfold h3; rewrite length_insert; exact Hl2).
  destruct (lookup_lt_is_Some_2 h3 (src + (4 * i + 3)) ltac:(lia)) as [a' Ha'].
  rewrite run_ret, run_bind, (run_load _ _ _ Ha').
  rewrite run_store by lia.
  eexists. split; [reflexivity |]. rewrite length_insert. exact Hl3.
Qed.

Lemma premultiply_loop_bounds :
  forall (m k : nat) (h : list T) u h',
    for_ k m body h = Some (u, h') ->
    length h' = length h
    /\ (m = 0 \/ (src + 4 * (k + m) <= length h /\ dst + 4 * (k + m) <= length h)).
Proof.
  induction m as [|m IH]; intros k h u h' H.
  - change (Some (tt, h) = Some (u, h')) in H. inversion H; subst.
    split; [reflexivity | left; reflexivity].
  - rewrite for_succ in H.
    apply bind_Some_inv in H as (u1 & h1 & Hb & Hrest).
    apply premultiply_texel_bounds in Hb as (Hs & Hd & Hl).
    apply IH in Hrest as (Hl' & Hm).
    split; [lia |]. right. destruct Hm as [-> | Hm]; lia.
Qed.

Lemma premultiply_loop_defined :
  (forall c a, is_Some (f c a)) ->
  forall (m k : nat) (h : list T),
    src + 4 * (k + m) <= length h -> dst + 4 * (k + m) <= length h ->
    exists h', for_ k m body h = Some (tt, h').
Proof.
  intros Hf. induction m as [|m IH]; intros k h Hs Hd.
  - exists h. reflexivity.
  - rewrite for_succ, run_bind.
    destruct (premultiply_texel_defined h k Hf ltac:(lia) ltac:(lia))
      as (h1 & -> & Hl).
    apply IH; lia.
Qed.
End TexelLoopBounds.

(** X9: whatever the overlap of the two buffers, a defined run of either
    premultiply routine over [n > 0] texels has its [4 * n] source cells and
    its [4 * n] destination cells within the heap, and keeps the size of the
    heap; [_PremultiplyAlphaFloat] is defined whenever they are. *)
Theorem Premultiply_defined_in_bounds :
  (forall pow (T : integral) (isSRGB : bool) (src dst n : nat) (h h' : list Z),
      exec (_PremultiplyAlpha pow T isSRGB src n dst) h = Some h' ->
      length h' = length h
      /\ (n = 0%nat
          \/ ((src + 4 * n <= length h)%nat /\ (dst + 4 * n <= length h)%nat)))
  /\ (forall (T : floating) (src dst n : nat) (h : list spec_float),
        (is_Some (exec (_PremultiplyAlphaFloat T src n dst) h)
         <-> n = 0%nat
             \/ ((src + 4 * n <= length h)%nat /\ (dst + 4 * n <= length h)%nat))
        /\ (forall h', exec (_PremultiplyAlphaFloat T src n dst) h = Some h' ->
                       length h' = length h)).
Proof.
  assert (Hb : forall {A : Type} (f : A -> A -> option A) (src dst n : nat)
                 (h h' : list A),
             exec (premultiply_texels f src n dst) h = Some h' ->
             length h' = length h
             /\ (n = 0%nat
                 \/ ((src + 4 * n <= length h)%nat /\ (dst + 4 * n <= length h)%nat))).
  { intros A f src dst n h h' H. unfold exec, premultiply_texels in H.
    destruct (for_ 0 n _ h) as [[u h1]|] eqn:E; [| discriminate].
    cbn in H. inversion H; subst h1.
    apply (premultiply_loop_bounds f src dst n 0%nat h u h') in E. exact E. }
  split.
  - intros pow T isSRGB src dst n h h' H.
    rewrite PremultiplyAlpha_unfold in H. exact (Hb _ _ _ _ _ _ _ H).
  - intros T src dst n h. rewrite PremultiplyAlphaFloat_unfold. split; [split |].
    + intros [h' H]. exact (proj2 (Hb _ _ _ _ _ _ _ H)).
    + intros [-> | [Hs Hd]].
      * exists h. reflexivity.
      * destruct (premultiply_loop_defined (fun c a => Some (multiply T c a))
                    src dst ltac:(intros; eexists; reflexivity) n 0%nat h
                    ltac:(lia) ltac:(lia)) as (h' & H).
        exists h'. unfold exec, premultiply_texels. rewrite H. reflexivity.
    + intros h' H. exact (proj1 (Hb _ _ _ _ _ _ _ H)).
Qed.

Lemma Premultiply_defined_in_bounds_witness :
  exists h',
    exec (_PremultiplyAlpha (fun x _ => x) unsigned_char false 0 1 1)
      [255; 128; 0; 128; 0] = Some h'
    /\ length h' = 5%nat.
Proof.
  eexists. split; [vm_compute; reflexivity |].
  apply (proj1 Premultiply_defined_in_bounds (fun x _ => x) unsigned_char false
           0%nat 1%nat 1%nat [255; 128; 0; 128; 0]).
  vm_compute. reflexivity.
Defined.

(* ================================================================== *)
(** * Instances of the expansion lemmas *)

Lemma ConvertRGBToRGBA_disjoint_witness :
  exists h',
    exec (_ConvertRGBToRGBA unsigned_char 0 2 8)
      [10; 20; 30; 40; 50; 60; 0; 0; 1; 1; 1; 1; 1; 1; 1; 1] = Some h'
    /\ h' !! 13%nat = Some 50
    /\ h' !! 15%nat = Some 255
    /\ h' !! 4%nat = Some 50.
Proof.
  destruct (ConvertRGBToRGBA_disjoint unsigned_char 0 8 2
              [10; 20; 30; 40; 50; 60; 0; 0; 1; 1; 1; 1; 1; 1; 1; 1])
    as (h' & Hex & _ & Hch & Hop & Hfr).
  - cbn. lia.
  - cbn. lia.
  - left. cbn. lia.
  - exists h'. split; [exact Hex |]. split; [| split].
    + exact (Hch 1%nat 1%nat ltac:(lia) ltac:(lia)).
    + exact (Hop 1%nat ltac:(lia)).
    + exact (Hfr 4%nat ltac:(lia)).
Defined.

Lemma ConvertRGBToRGBA_in_place_witness :
  exists h',
    exec (_ConvertRGBToRGBA unsigned_char 0 4 0)
      [1; 2; 3; 4; 5; 6; 7; 8; 9; 10; 11; 12; 0; 0; 0; 0] = Some h'
    /\ h' !! 14%nat = Some 12
    /\ h' !! 5%nat = Some 4
    /\ h' !! 10%nat = Some 7.
Proof.
  destruct (ConvertRGBToRGBA_in_place unsigned_char 0 4
              [1; 2; 3; 4; 5; 6; 7; 8; 9; 10; 11; 12; 0; 0; 0; 0])
    as (h' & Hex & _ & Hch & _).
  - cbn. lia.
  - exists h'. split; [exact Hex |]. split; [| split].
    + exact (Hch 3%nat 2%nat ltac:(lia) ltac:(lia)).
    + exact (Hch 1%nat 1%nat ltac:(lia) ltac:(lia)).
    + exact (Hch 2%nat 2%nat ltac:(lia) ltac:(lia)).
Defined.

Lemma ConvertRGBToRGBA_defined_iff_in_bounds_witness :
  exec (_ConvertRGBToRGBA unsigned_char 0 2 0) [10; 20; 30; 40; 50; 60; 0] = None
  /\ exists h',
       exec (_ConvertRGBToRGBA unsigned_char 0 2 1) [10; 20; 30; 40; 50; 60; 0; 0; 0]
         = Some h'
       /\ length h' = 9%nat.
Proof.
  split.
  - destruct (exec (_ConvertRGBToRGBA unsigned_char 0 2 0) [10; 20; 30; 40; 50; 60; 0])
      as [h'|] eqn:E; [| reflexivity].
    exfalso.
    destruct (proj1 (proj1 (ConvertRGBToRGBA_defined_iff_in_bounds unsigned_char
                              0%nat 0%nat 2%nat [10; 20; 30; 40; 50; 60; 0]))
                (ex_intro _ h' E)) as [H | [_ H]].
    + discriminate H.
    + cbn in H. lia.
  - assert (Hb : (0 + 3 * 2 <= length [10; 20; 30; 40; 50; 60; 0; 0; 0])%nat
                 /\ (1 + 4 * 2 <= length [10; 20; 30; 40; 50; 60; 0; 0; 0])%nat)
      by (cbn; lia).
    destruct (proj2 (proj1 (ConvertRGBToRGBA_defined_iff_in_bounds unsigned_char
                              0%nat 1%nat 2%nat [10; 20; 30; 40; 50; 60; 0; 0; 0]))
                (or_intror Hb)) as [h' E].
    exists h'. split; [exact E |].
    exact (proj2 (ConvertRGBToRGBA_defined_iff_in_bounds unsigned_char
                    0%nat 1%nat 2%nat [10; 20; 30; 40; 50; 60; 0; 0; 0]) h' E).
Defined.

(* ================================================================== *)
(** * Values the routines store *)

(** X10: the opaque alpha of each element type, value by value: 255, 127,
    65535 and 2147483647 for the integer types, and for [float] and [GfHalf]
    the valid datum [2^23 * 2^-23] and [2^10 * 2^-10], that is 1. For every
    integer type [_PremultiplyAlpha] reads it back as the ratio exactly 1.
    For the 8-bit types every other value of the type gives a ratio strictly
    below 1; for [int32_t] the 64 largest values all give the ratio 1. *)
Theorem OpaqueAlpha_is_full_alpha :
  _OpaqueAlpha unsigned_char = 255
  /\ _OpaqueAlpha signed_char = 127
  /\ _OpaqueAlpha uint16_t = 65535
  /\ _OpaqueAlpha int32_t = 2147483647
  /\ _OpaqueAlpha float = S754_finite false 8388608 (-23)
  /\ _OpaqueAlpha GfHalf = S754_finite false 1024 (-10)
  /\ (forall T : floating,
        valid_binary (prec T) (emax T) (_OpaqueAlpha T) = true)
  /\ (forall T : integral, alpha_ratio T (_OpaqueAlpha T) = f32.one)
  /\ (forall (T : integral) (a : Z),
        T = unsigned_char \/ T = signed_char ->
        representable T a -> a <> _OpaqueAlpha T ->
        SFltb (alpha_ratio T a) f32.one = true)
  /\ (forall a : Z,
        2 ^ 31 - 64 <= a <= 2 ^ 31 - 1 -> alpha_ratio int32_t a = f32.one).
Proof.
  do 6 (split; [reflexivity |]).
  split; [intros []; reflexivity |].
  split; [intros []; vm_compute; reflexivity |].
  split.
  - intros T a [-> | ->] Ha Hne; unfold representable in Ha; cbn in Ha, Hne.
    + assert (H : range_all (fun a => SFltb (alpha_ratio unsigned_char a) f32.one)
                    0 255 = true) by (vm_compute; reflexivity).
      apply (range_all_spec _ _ _ H). lia.
    + assert (H : range_all (fun a => SFltb (alpha_ratio signed_char a) f32.one)
                    (-128) 255 = true) by (vm_compute; reflexivity).
      apply (range_all_spec _ _ _ H). lia.
  - intros a Ha.
    assert (H : range_all (fun a => spec_float_eqb (alpha_ratio int32_t a) f32.one)
                  (2 ^ 31 - 64) 64 = true) by (vm_compute; reflexivity).
    apply spec_float_eqb_eq. apply (range_all_spec _ _ _ H). lia.
Qed.

Lemma OpaqueAlpha_is_full_alpha_witness :
  SFltb (alpha_ratio signed_char (-128)) f32.one = true
  /\ alpha_ratio int32_t 2147483600 = f32.one.
Proof.
  split.
  - apply (proj1 (proj2 (proj2 (proj2 (proj2 (proj2 (proj2 (proj2 (proj2
             OpaqueAlpha_is_full_alpha)))))))) signed_char (-128)).
    + right. reflexivity.
    + unfold representable. cbn. lia.
    + cbn. lia.
  - apply (proj2 (proj2 (proj2 (proj2 (proj2 (proj2 (proj2 (proj2 (proj2
             OpaqueAlpha_is_full_alpha)))))))) 2147483600).
    lia.
Defined.




(** X12: for an [unsigned char] channel without sRGB handling, full alpha
    stores the channel unchanged, zero alpha stores 0, and the stored value
    grows with the channel and with alpha. *)
Theorem premultiplied_unsigned_char_opaque_transparent_monotone :
  forall pow (c a c' a' : Z),
    representable unsigned_char c -> representable unsigned_char a ->
    representable unsigned_char c' -> representable unsigned_char a' ->
    premultiplied pow unsigned_char false c 255 = Some c
    /\ premultiplied pow unsigned_char false c 0 = Some 0
    /\ (c <= c' -> a <= a' ->
        exists v v',
          premultiplied pow unsigned_char false c a = Some v
          /\ premultiplied pow unsigned_char false c' a' = Some v'
          /\ v <= v').
Proof.
  intros pow c a c' a' Hc Ha Hc' Ha'.
  assert (H255 : representable unsigned_char 255) by (unfold representable; cbn; lia).
  assert (H0 : representable unsigned_char 0) by (unfold representable; cbn; lia).
  rewrite !premultiplied_linear.
  rewrite !scaled_and_rounded_unsigned_char by assumption.
  unfold representable in Hc, Ha, Hc', Ha'. cbn in Hc, Ha, Hc', Ha'.
  split; [| split].
  - f_equal. replace (2 * c * 255 + 255) with (255 + c * 510) by ring.
    rewrite Z.div_add by lia. reflexivity.
  - f_equal. replace (2 * c * 0 + 255) with 255 by ring. reflexivity.
  - intros Hcc Haa. eexists _, _. split; [reflexivity | split; [reflexivity |]].
    apply Z.div_le_mono; [lia | nia].
Qed.

Lemma premultiplied_unsigned_char_opaque_transparent_monotone_witness :
  premultiplied (fun x _ => x) unsigned_char false 77 255 = Some 77.
Proof.
  apply (premultiplied_unsigned_char_opaque_transparent_monotone
           (fun x _ => x) 77 10 80 20);
    unfold representable; cbn; lia.
Defined.

(** X13: for [signed char] without sRGB handling, the value
    [_PremultiplyAlpha] stores for channel [c] and alpha [a] is the
    quotient, truncated toward zero, of [2 * c * a + 127] by 254 (so the half
    is added before a truncation toward zero, also for negative products),
    and it is undefined, the value being 128 or 129, exactly for the three
    pairs of the two lowest values (-128, -128), (-128, -127) and
    (-127, -128). *)
Theorem premultiplied_signed_char_closed_form :
  forall pow (c a : Z),
    representable signed_char c -> representable signed_char a ->
    premultiplied pow signed_char false c a
    = (if (c + a <=? -255) then None else Some (Z.quot (2 * c * a + 127) 254)).
Proof.
  intros pow c a Hc Ha.
  assert (H : range_all (fun c => range_all (fun a =>
                match scaled_and_rounded signed_char c a with
                | Some v => negb (c + a <=? -255) && (v =? Z.quot (2 * c * a + 127) 254)
                | None => c + a <=? -255
                end) (-128) 256) (-128) 256 = true) by (vm_compute; reflexivity).
  unfold representable in Hc, Ha. cbn in Hc, Ha.
  pose proof (range_all_spec _ _ _ H c ltac:(lia)) as H1. cbn beta in H1.
  pose proof (range_all_spec _ _ _ H1 a ltac:(lia)) as H2. cbn beta in H2.
  rewrite premultiplied_linear.
  destruct (scaled_and_rounded signed_char c a) as [v|].
  - apply andb_prop in H2 as [Hn Hv]. apply Z.eqb_eq in Hv.
    destruct (c + a <=? -255); [discriminate | congruence].
  - rewrite H2. reflexivity.
Qed.

Lemma premultiplied_signed_char_closed_form_witness :
  premultiplied (fun x _ => x) signed_char false (-3) 50 = Some 0
  /\ premultiplied (fun x _ => x) signed_char false (-128) (-127) = None.
Proof.
  split.
  - rewrite (premultiplied_signed_char_closed_form (fun x _ => x) (-3) 50);
      [reflexivity | unfold representable; cbn; lia ..].
  - rewrite (premultiplied_signed_char_closed_form (fun x _ => x) (-128) (-127));
      [reflexivity | unfold representable; cbn; lia ..].
Defined.

(** X14: for [int32_t] the largest value is converted to the float [2^31];
    a fully opaque texel (alpha at the largest value) whose color channel is
    within 64 of the largest value has the rounded product [2^31], which
    [int32_t] cannot hold: the run is undefined. *)
Theorem premultiplied_int32_opaque_overflow :
  forall pow (c : Z),
    2 ^ 31 - 64 <= c <= 2 ^ 31 - 1 ->
    representable int32_t c
    /\ f32.of_Z (numeric_limits.max int32_t) = S754_finite false 8388608 8
    /\ premultiplied pow int32_t false c (numeric_limits.max int32_t) = None.
Proof.
  intros pow c Hc.
  assert (H : range_all (fun c =>
                match scaled_and_rounded int32_t c 2147483647 with
                | None => true
                | Some _ => false
                end) (2 ^ 31 - 64) 64 = true) by (vm_compute; reflexivity).
  split; [unfold representable; cbn; lia |]. split; [vm_compute; reflexivity |].
  rewrite premultiplied_linear.
  pose proof (range_all_spec _ _ _ H c ltac:(lia)) as H1. cbn beta in H1.
  change (numeric_limits.max int32_t) with 2147483647.
  destruct (scaled_and_rounded int32_t c 2147483647); [discriminate | reflexivity].
Qed.

Lemma premultiplied_int32_opaque_overflow_witness :
  premultiplied (fun x _ => x) int32_t false 2147483647 2147483647 = None.
Proof.
  apply (premultiplied_int32_opaque_overflow (fun x _ => x) 2147483647). lia.
Defined.

(** X16: for [signed char] without sRGB handling, full alpha (127) stores a
    channel that is not negative unchanged, and a negative channel [c] as
    [c + 1]: the half added before the truncation toward zero moves negative
    values up. *)
Theorem premultiplied_signed_char_opaque :
  forall pow (c : Z),
    representable signed_char c ->
    premultiplied pow signed_char false c (numeric_limits.max signed_char)
    = Some (if c <? 0 then c + 1 else c).
Proof.
  intros pow c Hc.
  assert (H : range_all (fun c =>
                match scaled_and_rounded signed_char c 127 with
                | Some v => v =? (if c <? 0 then c + 1 else c)
                | None => false
                end) (-128) 256 = true) by (vm_compute; reflexivity).
  unfold representable in Hc. cbn in Hc.
  pose proof (range_all_spec _ _ _ H c ltac:(lia)) as H1. cbn beta in H1.
  rewrite premultiplied_linear.
  change (numeric_limits.max signed_char) with 127.
  destruct (scaled_and_rounded signed_char c 127) as [v|]; [| discriminate].
  apply Z.eqb_eq in H1. subst v. reflexivity.
Qed.

Lemma premultiplied_signed_char_opaque_witness :
  premultiplied (fun x _ => x) signed_char false (-3) 127 = Some (-2).
Proof.
  apply (premultiplied_signed_char_opaque (fun x _ => x) (-3)).
  unfold representable. cbn. lia.
Defined.

(** X17: for [uint16_t] without sRGB handling, full alpha (65535) stores
    every channel unchanged and zero alpha stores 0. *)
Theorem premultiplied_uint16_opaque_transparent :
  forall pow (c : Z),
    representable uint16_t c ->
    premultiplied pow uint16_t false c (numeric_limits.max uint16_t) = Some c
    /\ premultiplied pow uint16_t false c 0 = Some 0.
Proof.
  intros pow c Hc.
  assert (H : range_all (fun c =>
                match scaled_and_rounded uint16_t c 65535,
                      scaled_and_rounded uint16_t c 0 with
                | Some v, Some z => (v =? c) && (z =? 0)
                | _, _ => false
                end) 0 65536 = true) by (vm_compute; reflexivity).
  unfold representable in Hc. cbn in Hc.
  pose proof (range_all_spec _ _ _ H c ltac:(lia)) as H1. cbn beta in H1.
  rewrite !premultiplied_linear.
  change (numeric_limits.max uint16_t) with 65535.
  destruct (scaled_and_rounded uint16_t c 65535) as [v|]; [| discriminate].
  destruct (scaled_and_rounded uint16_t c 0) as [z|]; [| discriminate].
  apply andb_prop in H1 as [Hv Hz]. apply Z.eqb_eq in Hv, Hz. subst.
  split; reflexivity.
Qed.

Lemma premultiplied_uint16_opaque_transparent_witness :
  premultiplied (fun x _ => x) uint16_t false 40000 65535 = Some 40000
  /\ premultiplied (fun x _ => x) uint16_t false 40000 0 = Some 0.
Proof.
  apply (premultiplied_uint16_opaque_transparent (fun x _ => x) 40000).
  unfold representable. cbn. lia.
Defined.

(** Clamping to [0, 1] yields a datum of that range, or NaN when given NaN. *)
Lemma GfClamp_unit_range (v : spec_float) :
  (v = S754_nan /\ GfClamp v f32.zero f32.one = S754_nan)
  \/ in_unit_range (GfClamp v f32.zero f32.one) = true.
Proof.
  assert (H1 : f32.one = S754_finite false 8388608 (-23)) by reflexivity.
  unfold GfClamp, in_unit_range, f32.ltb, f32.leb, f32.zero.
  rewrite H1. clear H1.
  destruct v as [s | s | | s m e].
  - right. destruct s; reflexivity.
  - right. destruct s; reflexivity.
  - left. split; reflexivity.
  - destruct s; [right; reflexivity |].
    right. unfold SFltb, SFleb. cbn [SFcompare].
    assert (Hm : Pos.compare_cont Eq m 8388608
                 = CompOpp (Pos.compare_cont Eq 8388608 m))
      by (rewrite Pos.compare_cont_antisym; reflexivity).
    destruct (-23 ?= e) eqn:Ee.
    + destruct (Pos.compare_cont Eq 8388608 m) eqn:Em.
      * cbn [SFcompare andb]. rewrite (Z.compare_antisym (-23) e), Ee. cbn [CompOpp].
        rewrite Hm. reflexivity.
      * reflexivity.
      * cbn [SFcompare andb]. rewrite (Z.compare_antisym (-23) e), Ee. cbn [CompOpp].
        rewrite Hm. reflexivity.
    + reflexivity.
    + cbn [SFcompare andb]. rewrite (Z.compare_antisym (-23) e), Ee. reflexivity.
Qed.

(** X15: whatever [pow] returns, a color-space conversion yields a datum
    between 0 and 1, or NaN. *)
Theorem ConvertColorSpace_in_unit_range :
  forall pow (t : _ColorSpaceTransform) (in_ : spec_float),
    _ConvertColorSpace pow t in_ = S754_nan
    \/ in_unit_range (_ConvertColorSpace pow t in_) = true.
Proof.
  intros pow t in_. unfold _ConvertColorSpace. cbv zeta.
  destruct (GfClamp_unit_range
              (match t with
               | _SRGBToLinear =>
                   if f64.leb (f64.of_float in_) (f64.lit 4045 5)
                   then f32.of_double (f64.div (f64.of_float in_) (f64.lit 1292 2))
                   else f32.of_double
                          (pow (f64.div (f64.add (f64.of_float in_) (f64.lit 55 3))
                                        (f64.lit 1055 3))
                               (f64.lit 24 1))
               | _LinearToSRGB =>
                   if f64.leb (f64.of_float in_) (f64.lit 31308 7)
                   then f32.of_double (f64.mul (f64.lit 1292 2) (f64.of_float in_))
                   else f32.of_double
                          (f64.sub
                             (f64.mul (f64.lit 1055 3)
                                (pow (f64.of_float in_)
                                     (f64.div f64.one (f64.lit 24 1))))
                             (f64.lit 55 3))
               end)) as [[_ H] | H]; [left | right]; exact H.
Qed.
